(** * MoveToMapPokemon: a shallow embedding of
    [pokemongo_bot/cell_workers/move_to_map_pokemon.py]

    The task picks a target from a map feed, walks or teleports ("snipes")
    to it and keeps a bounded ledger of the positions it already went
    after.  Python floats are embedded as the rationals they denote (every
    finite double is a rational; NaN and the infinities are left out), the
    rounded float operations and the helpers living in other modules of the
    bot are fields of a [host] record, and the mutable objects ([self],
    [self.bot], the event manager, the file system, the clock) are threaded
    through an explicit state-and-exception monad. *)

From Stdlib Require Import ZArith QArith Qabs Ascii String List Lia Bool.
From Stdlib Require Import Sorting.Permutation Sorting.Sorted.
From stdpp Require Import base gmap strings pretty.
Import ListNotations.

Local Open Scope string_scope.
Local Open Scope Z_scope.

(** ** Numbers and formatting *)

Module Num.

(** Python's [a > b] on two finite floats. *)
Definition gt (a b : Q) : bool := negb (Qle_bool a b).
Definition lt (a b : Q) : bool := gt b a.

(** [int(x)]: truncation towards zero. *)
Definition py_int (x : Q) : Z := Z.quot (Qnum x) (Zpos (Qden x)).

(** Nearest integer to [a / d], ties to even ([0 <= a], [0 < d]). *)
Definition round_half_even (a d : Z) : Z :=
  let q := a / d in
  let r := a mod d in
  if 2 * r <? d then q
  else if d <? 2 * r then q + 1
  else if Z.even q then q else q + 1.

Fixpoint zeros (n : nat) : string :=
  match n with
  | O => EmptyString
  | S n' => "0" +:+ zeros n'
  end.

Definition pad4 (s : string) : string :=
  zeros (4 - String.length s) +:+ s.

(** ["{0:.4f}".format(x)]: the sign, the integer part and exactly four
    decimals of [x] correctly rounded (ties to even on the exact value). *)
Definition fmt4 (x : Q) : string :=
  let n := round_half_even (Z.abs (Qnum x) * 10000) (Zpos (Qden x)) in
  (if Qnum x <? 0 then "-" else EmptyString)
    +:+ pretty (Z.to_N (n / 10000)) +:+ "."
    +:+ pad4 (pretty (Z.to_N (n mod 10000))).

End Num.

(** ** Sightings and candidates *)

(** An identifier as the feeds deliver it: [None], a string (possibly
    empty) or an integer. *)
Inductive ident : Type :=
| IdNone
| IdStr (s : string)
| IdInt (z : Z).

(** Python truthiness of an identifier. *)
Definition truthy (i : ident) : bool :=
  match i with
  | IdNone => false
  | IdStr s => negb (String.eqb s EmptyString)
  | IdInt z => negb (z =? 0)
  end.

(** The dictionary the task passes around once a sighting went through a
    filter.  [spawnpoint_id] is the key of the pull feed; it is absent
    ([None]) on records of the push feed. *)
Record pokemon_t : Type := mkPokemon {
  pokemon_id : Z;
  latitude : Q;
  longitude : Q;
  encounter_id : ident;
  spawn_point_id : ident;
  spawnpoint_id : option ident;
  iv : option Z;
  disappear_time : Z;
  name : string;
  is_vip : bool;
  priority : Z;
  dist : Q
}.

(** ** The dedup ledger ([self.caught]) *)

Module Ledger.

(** The comparison both loops make: equality of the two coordinates as
    printed with four decimals. *)
Definition same_spot (p c : pokemon_t) : bool :=
  String.eqb (Num.fmt4 (latitude p)) (Num.fmt4 (latitude c))
  && String.eqb (Num.fmt4 (longitude p)) (Num.fmt4 (longitude c)).

(** [is_inspected]: the loop returns [True] at the first match. *)
Fixpoint is_inspected (caught : list pokemon_t) (p : pokemon_t) : bool :=
  match caught with
  | [] => false
  | caught_pokemon :: rest =>
      if same_spot p caught_pokemon then true else is_inspected rest p
  end.

(** [self.caught.pop(0)]. *)
Definition pop0 (caught : list pokemon_t) : list pokemon_t := tl caught.

Definition capacity : nat := 200.

(** The first loop of [inspect]; [None] stands for its early [return]. *)
Fixpoint inspect_scan (caught : list pokemon_t) (p : pokemon_t) : option unit :=
  match caught with
  | [] => Some tt
  | caught_pokemon :: rest =>
      if same_spot p caught_pokemon then None else inspect_scan rest p
  end.

(** [inspect]: the new value of [self.caught]. *)
Definition inspect (caught : list pokemon_t) (p : pokemon_t) : list pokemon_t :=
  match inspect_scan caught p with
  | None => caught
  | Some _ =>
      let caught := if (capacity <=? length caught)%nat then pop0 caught else caught in
      caught ++ [p]
  end.

(** Ledgers the task can build: the empty one and whatever [inspect]
    makes of a ledger it built. *)
Inductive built : list pokemon_t -> Prop :=
| built_empty : built []
| built_inspect caught p : built caught -> built (inspect caught p).

Definition key (p : pokemon_t) : string * string :=
  (Num.fmt4 (latitude p), Num.fmt4 (longitude p)).

End Ledger.

(** ** Configuration *)

(** The task's [self.config] dictionary, one optional entry per key the
    task reads.  A key read as [self.config.get(k, d)] goes through
    [default d]; a key read as [self.config[k]] raises [KeyError] when it
    is absent. *)
Record config : Type := mkConfig {
  cfg_min_ball : option Z;
  cfg_map_path : option string;
  cfg_walker : option string;
  cfg_snipe_high_prio_only : option bool;
  cfg_snipe_high_prio_threshold : option Z;
  cfg_catch : option (gmap string Z);
  cfg_debug : option bool;
  cfg_max_sniping_distance : option Q;
  cfg_max_walking_distance : option Q;
  cfg_snipe : option bool;
  cfg_address : option string;
  cfg_snipe_sleep_sec : option Q;
  cfg_skip_rounds : option Z;
  cfg_mode : option string;
  cfg_prioritize_vips : option bool;
  cfg_snipe_max_in_chain : option Z;
  cfg_max_extra_dist_fort : option Q
}.

(** [self.bot.config]: attributes, always present. *)
Record bot_config : Type := mkBotConfig {
  username : string;
  enable_social : bool;
  vips : list string;
  walk_max : Q;
  walk_min : Q;
  distance_unit : string;
  alt_min : Q;
  alt_max : Q
}.

(** ** Feeds and surroundings *)

(** A record of the push buffer ([self.bot.mqtt_pokemon_list]). *)
Record mqtt_sighting : Type := mkMqtt {
  m_pokemon_id : Z;
  m_latitude : Q;
  m_longitude : Q;
  m_encounter_id : ident;
  m_spawn_point_id : ident;
  m_expiration_timestamp_ms : Z
}.

(** An element of the [pokemons] array of the pull feed.  The optional
    fields are [None] when the key is missing from the object. *)
Record url_sighting : Type := mkUrl {
  u_pokemon_id : Z;
  u_latitude : Q;
  u_longitude : Q;
  u_disappear_time : Z;
  u_encounter_id : option ident;
  u_spawnpoint_id : option ident;
  u_iv : option Z
}.

(** What [requests.get(address).json()] can do. *)
Inductive http_result : Type :=
| ConnectionError
| InvalidJSON
| Body (pokemons : option (list url_sighting)).

(** A creature seen around the trainer: a wild one carries its species
    under [pokemon_data], a catchable one at top level. *)
Inductive nearby_pokemon : Type :=
| Wild (species : Z) (enc spawn : ident) (last_modified_timestamp_ms : Z)
| Catchable (species : Z) (enc spawn : ident) (expiration_timestamp_ms : Z).

Record meta_cell : Type := mkCell {
  wild_pokemons : option (list nearby_pokemon);
  catchable_pokemons : option (list nearby_pokemon)
}.

Record fort : Type := mkFort {
  fort_id : string;
  fort_latitude : Q;
  fort_longitude : Q
}.

(** ** State *)

(** [self.bot.capture_locked]: [False] or the species the catch worker is
    restricted to. *)
Inductive lock : Type :=
| Unlocked
| LockedTo (species : Z).

(** The part of the bot object the task reads or writes.
    [mqtt_pokemon_list] is [None] while the attribute does not exist. *)
Record bot_state : Type := mkBot {
  position : Q * Q * Q;
  capture_locked : lock;
  mqtt_pokemon_list : option (list mqtt_sighting);
  fort_timeouts : gset string;
  pokemon_list : list string;
  inventory : Z -> Z;
  bconfig : bot_config
}.

(** The fields of [self]. *)
Record task_state : Type := mkTask {
  last_map_update : Z;
  pokemon_data : list string;
  unit_ : string;
  caught : list pokemon_t;
  min_ball : Z;
  map_path : string;
  walker : string;
  snipe_high_prio_only : bool;
  snipe_high_prio_threshold : Z;
  by_pass_times : Z;
  alt : Q;
  tconfig : config
}.

Inductive ev_value : Type :=
| EvStr (s : string)
| EvNum (q : Q).

(** One call of [emit_event]. *)
Record event : Type := mkEvent {
  ev_name : string;
  ev_formatted : string;
  ev_data : list (string * ev_value)
}.

(** Everything a tick can touch: the bot, the task, the events emitted so
    far, the addresses fetched so far, the files and the clock. *)
Record world : Type := mkWorld {
  bot : bot_state;
  task : task_state;
  events : list event;
  requests : list string;
  files : gmap string string;
  clock : Q
}.

Definition set_bot (f : bot_state -> bot_state) (w : world) : world :=
  mkWorld (f (bot w)) (task w) (events w) (requests w) (files w) (clock w).

Definition set_task (f : task_state -> task_state) (w : world) : world :=
  mkWorld (bot w) (f (task w)) (events w) (requests w) (files w) (clock w).

Definition with_position (pos : Q * Q * Q) (b : bot_state) : bot_state :=
  mkBot pos (capture_locked b) (mqtt_pokemon_list b) (fort_timeouts b)
    (pokemon_list b) (inventory b) (bconfig b).

Definition with_capture_locked (l : lock) (b : bot_state) : bot_state :=
  mkBot (position b) l (mqtt_pokemon_list b) (fort_timeouts b)
    (pokemon_list b) (inventory b) (bconfig b).

Definition with_mqtt_pokemon_list (l : option (list mqtt_sighting)) (b : bot_state) : bot_state :=
  mkBot (position b) (capture_locked b) l (fort_timeouts b)
    (pokemon_list b) (inventory b) (bconfig b).

Definition with_caught (c : list pokemon_t) (t : task_state) : task_state :=
  mkTask (last_map_update t) (pokemon_data t) (unit_ t) c (min_ball t)
    (map_path t) (walker t) (snipe_high_prio_only t)
    (snipe_high_prio_threshold t) (by_pass_times t) (alt t) (tconfig t).

Definition with_by_pass_times (n : Z) (t : task_state) : task_state :=
  mkTask (last_map_update t) (pokemon_data t) (unit_ t) (caught t) (min_ball t)
    (map_path t) (walker t) (snipe_high_prio_only t)
    (snipe_high_prio_threshold t) n (alt t) (tconfig t).

(** ** The host: helpers and collaborators defined outside this file *)

Inductive api_response : Type :=
| ApiResponse (status : Z).

(** A walker as [walker_factory] builds it: a strategy name and a
    destination. *)
Record step_walker : Type := mkWalker {
  walker_name : string;
  dest_lat : Q;
  dest_lng : Q
}.

(** The constants and functions the task uses and does not define.  The
    float operations are the rounded ones; the collaborators act on the
    bot. *)
Record host : Type := mkHost {
  base_dir : string;
  MAX_DISTANCE_FORT_IS_REACHABLE : Q;
  MAX_DISTANCE_POKEMON_IS_REACHABLE : Q;
  distance : Q -> Q -> Q -> Q -> Q;
  fadd : Q -> Q -> Q;
  fmul : Q -> Q -> Q;
  fdiv : Q -> Q -> Q;
  format_dist : Q -> string -> string;
  format_time : Z -> string;
  str_num : Q -> string;
  str_pokemon : pokemon_t -> string;
  uniform : Q -> Q -> Q;
  json_dump : list pokemon_t -> string;
  json_load : string -> option (list pokemon_t);
  http_get : string -> nat -> http_result;
  b64_long : string -> option Z;
  heartbeat : bot_state -> bot_state;
  get_meta_cell : bot_state -> meta_cell;
  create_encounter_api_call : pokemon_t -> config -> bot_state -> api_response * bot_state;
  catch_work : pokemon_t -> config -> api_response -> bot_state -> bot_state;
  walker_factory : string -> Q -> Q -> bot_state -> option step_walker;
  walker_step : step_walker -> bot_state -> bool * bot_state;
  get_forts : bot_state -> list fort;
  fort_details : bot_state -> string -> Q -> Q -> option string;
  (* whether [open(path, 'w')] succeeds: the directory of the path exists
     and the file may be written; the task creates no directory *)
  writable : string -> bool
}.

(** Modelled from the spec: [self.bot.api.set_position] and the
    [self.bot.position] property belong to the position service, which the
    spec gives as [setPosition(lat, lon, alt, immediate)] and
    [currentPosition()]: setting stores the coordinates, the property
    reads them back. *)
Definition set_position (lat lon altitude : Q) (immediate : bool) (b : bot_state) : bot_state :=
  with_position (lat, lon, altitude) b.

Definition pos_lat (b : bot_state) : Q := fst (fst (position b)).
Definition pos_lon (b : bot_state) : Q := snd (fst (position b)).

(** ** The monad: state and exceptions *)

Inductive exn : Type :=
| KeyError (k : string)
| IndexError
| AttributeError
| ValueError
| IOError.

Inductive outcome (A : Type) : Type :=
| Ok (a : A)
| Raise (e : exn).
Arguments Ok {A} a.
Arguments Raise {A} e.

Definition M (A : Type) : Type := world -> outcome A * world.

Definition ret {A} (a : A) : M A := fun w => (Ok a, w).

Definition raise {A} (e : exn) : M A := fun w => (Raise e, w).

Definition bind {A B} (m : M A) (k : A -> M B) : M B :=
  fun w =>
    match m w with
    | (Ok a, w') => k a w'
    | (Raise e, w') => (Raise e, w')
    end.

Notation "x <- m ;; k" := (bind m (fun x => k))
  (at level 100, m at next level, right associativity).
Notation "m ;;; k" := (bind m (fun _ => k))
  (at level 100, right associativity).

Definition get : M world := fun w => (Ok w, w).
Definition modify (f : world -> world) : M unit := fun w => (Ok tt, f w).
Definition when (b : bool) (m : M unit) : M unit := if b then m else ret tt.

(** [d[k]] on an optional entry. *)
Definition item {A} (k : string) (o : option A) : M A :=
  match o with
  | Some v => ret v
  | None => raise (KeyError k)
  end.

(** [l[i]] with Python's negative indices. *)
Definition py_index {A} (l : list A) (i : Z) : M A :=
  let n := Z.of_nat (length l) in
  let j := if i <? 0 then i + n else i in
  if (0 <=? j) && (j <? n) then
    match nth_error l (Z.to_nat j) with
    | Some v => ret v
    | None => raise IndexError
    end
  else raise IndexError.

Definition emit_event (e : event) : M unit :=
  modify (fun w => mkWorld (bot w) (task w) (events w ++ [e]) (requests w) (files w) (clock w)).

(** [time.sleep(d)] and [int(time.time())]. *)
Definition sleep (d : Q) : M unit :=
  modify (fun w => mkWorld (bot w) (task w) (events w) (requests w) (files w) (Qred (clock w + d))).

Definition time_now : M Z := fun w => (Ok (Num.py_int (clock w)), w).

(** ** Paths *)

Definition ends_with_slash (a : string) : bool :=
  match String.get (String.length a - 1) a with
  | Some c => Ascii.eqb c "/"%char
  | None => false
  end.

(** [os.path.join(a, b)] on a POSIX system. *)
Definition path_join (a b : string) : string :=
  if String.prefix "/" b then b
  else if String.eqb a EmptyString || ends_with_slash a then a +:+ b
  else a +:+ "/" +:+ b.

Definition caught_file_name (user : string) : string :=
  "map-caught-" +:+ user +:+ ".json".

(** ** The task *)

Inductive WorkerResult : Type :=
| SUCCESS
| RUNNING.

(** Where a block of [work] leaves the function ([Return]) or goes on. *)
Inductive flow (A : Type) : Type :=
| Continue (a : A)
| Return (r : option WorkerResult).
Arguments Continue {A} a.
Arguments Return {A} r.

Definition ULTRABALL_ID : Z := 3.
Definition GREATBALL_ID : Z := 2.
Definition POKEBALL_ID : Z := 1.

Definition py_nth {A} (l : list A) (i : Z) : option A :=
  let n := Z.of_nat (length l) in
  let j := if i <? 0 then i + n else i in
  if (0 <=? j) && (j <? n) then nth_error l (Z.to_nat j) else None.

(** [a and b] with [b] evaluated only when [a] holds. *)
Definition and_then (a b : M bool) : M bool :=
  x <- a ;; if x then b else ret false.

(** The loop both filters run over their feed: a round ends in [continue]
    ([None]) or in [pokemon_list.append(pokemon)] ([Some pokemon]); an
    exception ends the loop. *)
Fixpoint for_each {A} (body : A -> M (option pokemon_t)) (feed : list A)
    (pokemon_list : list pokemon_t) : M (list pokemon_t) :=
  match feed with
  | [] => ret pokemon_list
  | raw :: rest =>
      r <- body raw ;;
      for_each body rest
        match r with
        | Some pokemon => pokemon_list ++ [pokemon]
        | None => pokemon_list
        end
  end.

Section Task.

Variable h : host.

Definition emit_failure (msg : string) : M unit :=
  emit_event (mkEvent "move_to_map_pokemon_fail" "Failure! {message}" [("message", EvStr msg)]).

Definition emit_log (msg : string) : M unit :=
  emit_event (mkEvent "move_to_map_pokemon" "{message}" [("message", EvStr msg)]).

Definition debug (w : world) : bool := default false (cfg_debug (tconfig (task w))).

(** [self.config['snipe']]. *)
Definition snipe_flag : M bool :=
  w <- get ;; item "snipe" (cfg_snipe (tconfig (task w))).

(** [(self.bot.config.walk_max + self.bot.config.walk_min) / 2]. *)
Definition mean_walk_speed (w : world) : Q :=
  fdiv h (fadd h (walk_max (bconfig (bot w))) (walk_min (bconfig (bot w)))) 2.

Definition with_priority_dist (prio : Z) (d : Q) (p : pokemon_t) : pokemon_t :=
  mkPokemon (pokemon_id p) (latitude p) (longitude p) (encounter_id p)
    (spawn_point_id p) (spawnpoint_id p) (iv p) (disappear_time p) (name p)
    (is_vip p) prio d.

(** *** Push mode *)

(** The record after lines 113-117.  [priority] and [dist] are not set
    yet; the zeros stand for the missing keys and are never read. *)
Definition social_record (raw : mqtt_sighting) (nm : string) (vip : bool) : pokemon_t :=
  mkPokemon (m_pokemon_id raw) (m_latitude raw) (m_longitude raw)
    (m_encounter_id raw) (m_spawn_point_id raw) None None
    (m_expiration_timestamp_ms raw / 1000) nm vip 0 0.

(** One round of the loop of [get_pokemon_from_social]; [None] is
    [continue], [Some p] is [pokemon_list.append(p)]. *)
Definition social_body (now : Z) (raw : mqtt_sighting) : M (option pokemon_t) :=
  w <- get ;;
  let cfg := tconfig (task w) in
  match py_nth (pokemon_data (task w)) (m_pokemon_id raw - 1) with
  | None => raise IndexError
  | Some nm =>
  let pokemon := social_record raw nm (bool_decide (nm ∈ vips (bconfig (bot w)))) in
  catch <- item "catch" (cfg_catch cfg) ;;
  match catch !! nm with
  | None =>
      when (debug w) (emit_failure ("Not catching " +:+ nm)) ;;;
      ret None
  | Some weight =>
      when (debug w) (emit_log ("Catching " +:+ nm)) ;;;
      if Ledger.is_inspected (caught (task w)) pokemon then ret None
      else
        let d := distance h (pos_lat (bot w)) (pos_lon (bot w)) (latitude pokemon) (longitude pokemon) in
        let pokemon := with_priority_dist weight d pokemon in
        if Num.gt d (default 10000%Q (cfg_max_sniping_distance cfg)) then ret None
        else if Num.gt d (default 1000%Q (cfg_max_walking_distance cfg))
                && negb (default false (cfg_snipe cfg)) then ret None
        else
          unreachable <- and_then
            (ret (Num.gt d (fmul h (inject_Z (disappear_time pokemon - now)) (mean_walk_speed w))))
            (s <- snipe_flag ;; ret (negb s)) ;;
          if unreachable then ret None else ret (Some pokemon)
  end
  end.

Definition get_pokemon_from_social : M (list pokemon_t) :=
  w <- get ;;
  match mqtt_pokemon_list (bot w) with
  | None => ret []
  | Some [] => ret []
  | Some tmp_pokemon_list =>
      now <- time_now ;;
      modify (set_bot (with_mqtt_pokemon_list (Some []))) ;;;
      for_each (social_body now) tmp_pokemon_list []
  end.

(** *** Pull mode *)

(** Lines 173-180, whose every exception is swallowed by the bare
    [except]: [None] is a parse failure. *)
Definition url_parse (w : world) (raw : url_sighting) : option pokemon_t :=
  enc_raw ← u_encounter_id raw;
  enc ← (if negb (truthy enc_raw) then Some (IdStr EmptyString)
         else match enc_raw with
              | IdStr s => IdInt <$> b64_long h s
              | _ => None
              end);
  sp_raw ← u_spawnpoint_id raw;
  nm ← py_nth (pokemon_data (task w)) (u_pokemon_id raw - 1);
  Some (mkPokemon (u_pokemon_id raw) (u_latitude raw) (u_longitude raw)
          enc (if negb (truthy sp_raw) then IdStr EmptyString else sp_raw) (Some sp_raw)
          (Some (default 0 (u_iv raw))) (u_disappear_time raw / 1000) nm
          (bool_decide (nm ∈ vips (bconfig (bot w)))) 0 0).

(** One round of the loop of [get_pokemon_from_url]. *)
Definition url_body (time_now : Z) (raw : url_sighting) : M (option pokemon_t) :=
  w <- get ;;
  let cfg := tconfig (task w) in
  match url_parse w raw with
  | None => emit_failure "Error while parsing information" ;;; ret None
  | Some pokemon =>
  catch <- item "catch" (cfg_catch cfg) ;;
  if bool_decide (catch !! name pokemon = None) && negb (is_vip pokemon) then
    when (debug w) (emit_log ("Skipped " +:+ name pokemon
                              +:+ " because its not in catch list and not a VIP")) ;;;
    ret None
  else if Ledger.is_inspected (caught (task w)) pokemon then
    when (debug w) (emit_log ("Skipped " +:+ name pokemon
                              +:+ " because it was already catch or does not exist")) ;;;
    ret None
  else
    let d := distance h (pos_lat (bot w)) (pos_lon (bot w)) (latitude pokemon) (longitude pokemon) in
    let pokemon := with_priority_dist (default 0 (catch !! name pokemon)) d pokemon in
    too_far <- and_then
      (m <- item "max_sniping_distance" (cfg_max_sniping_distance cfg) ;; ret (Num.gt d m))
      snipe_flag ;;
    if too_far then
      when (debug w) (emit_log ("Skipped " +:+ name pokemon
         +:+ " because the sniping distance exceeds the max ("
         +:+ str_num h (default 0%Q (cfg_max_sniping_distance cfg)) +:+ ")")) ;;;
      ret None
    else
    too_far_to_walk <- and_then
      (m <- item "max_walking_distance" (cfg_max_walking_distance cfg) ;; ret (Num.gt d m))
      (s <- snipe_flag ;; ret (negb s)) ;;
    if too_far_to_walk then
      when (debug w) (emit_log ("Skipped " +:+ name pokemon
         +:+ " because the walking distance exceeds the max ("
         +:+ str_num h (default 0%Q (cfg_max_walking_distance cfg)) +:+ ")")) ;;;
      ret None
    else
    unreachable <- and_then
      (ret (Num.gt d (fmul h (inject_Z (disappear_time pokemon - time_now)) (mean_walk_speed w))))
      (s <- snipe_flag ;; ret (negb s)) ;;
    if unreachable then
      when (debug w) (emit_log ("Skipped " +:+ name pokemon
         +:+ " because -pokemon not reachable with mean walking speed (by config)-")) ;;;
      ret None
    else ret (Some pokemon)
  end.

(** [requests.get(self.config['address'])]: the address is logged, the
    host answers for the n-th request. *)
Definition fetch (address : string) : M http_result :=
  w <- get ;;
  modify (fun w => mkWorld (bot w) (task w) (events w) (requests w ++ [address]) (files w) (clock w)) ;;;
  ret (http_get h address (length (requests w))).

Definition get_pokemon_from_url : M (list pokemon_t) :=
  w <- get ;;
  address <- item "address" (cfg_address (tconfig (task w))) ;;
  response <- fetch address ;;
  match response with
  | ConnectionError =>
      emit_failure ("Could not get data from " +:+ address) ;;; ret []
  | InvalidJSON =>
      emit_failure "JSON format is not valid" ;;; ret []
  | Body pokemons =>
      now <- time_now ;;
      l <- item "pokemons" pokemons ;;
      for_each (url_body now) l []
  end.

(** *** Target selection *)

(** [l.sort(key=key, reverse=True)]: the sort is stable, and with
    [reverse=True] records with equal keys still keep their order.  An
    element goes in front of the first one whose key is not larger. *)
Fixpoint insert_desc (key : pokemon_t -> Z) (x : pokemon_t) (l : list pokemon_t) : list pokemon_t :=
  match l with
  | [] => [x]
  | y :: l' => if key x <? key y then y :: insert_desc key x l' else x :: l
  end.

Fixpoint sort_desc (key : pokemon_t -> Z) (l : list pokemon_t) : list pokemon_t :=
  match l with
  | [] => []
  | x :: l' => insert_desc key x (sort_desc key l')
  end.

(** The key [x['is_vip']]: [True] sorts above [False]. *)
Definition vip_key (p : pokemon_t) : Z := Z.b2z (is_vip p).

(** Lines 346-349 of [work]. *)
Definition order_targets (pokemon_list : list pokemon_t) : M (list pokemon_t) :=
  w <- get ;;
  mode <- item "mode" (cfg_mode (tconfig (task w))) ;;
  let pokemon_list :=
    if String.eqb mode "priority" then sort_desc priority pokemon_list else pokemon_list in
  vip_first <- item "prioritize_vips" (cfg_prioritize_vips (tconfig (task w))) ;;
  ret (if vip_first then sort_desc vip_key pokemon_list else pokemon_list).

(** *** Events about a target *)

Definition pokemon_event_data (pokemon : pokemon_t) : M (list (string * ev_value)) :=
  now <- time_now ;;
  w <- get ;;
  ret [("poke_name", EvStr (name pokemon));
       ("poke_dist", EvStr (format_dist h (dist pokemon) (unit_ (task w))));
       ("poke_lat", EvNum (latitude pokemon));
       ("poke_lon", EvNum (longitude pokemon));
       ("disappears_in", EvStr (format_time h (disappear_time pokemon - now)))].

Definition teleport_to (pokemon : pokemon_t) : M unit :=
  data <- pokemon_event_data pokemon ;;
  emit_event (mkEvent "move_to_map_pokemon_teleport_to"
                "Teleporting to {poke_name}. ({poke_dist})" data) ;;;
  w <- get ;;
  modify (set_bot (set_position (latitude pokemon) (longitude pokemon) (alt (task w)) true)).

Definition encountered (pokemon : pokemon_t) : M unit :=
  data <- pokemon_event_data pokemon ;;
  emit_event (mkEvent "move_to_map_pokemon_encounter"
                "Encountered Pokemon: {poke_name}" data).

Definition teleport_back (last_position : Q * Q) : M unit :=
  emit_event (mkEvent "move_to_map_pokemon_teleport_back"
                "Teleporting back to previous location ({last_lat}, {last_lon})..."
                [("last_lat", EvNum (fst last_position));
                 ("last_lon", EvNum (snd last_position))]).

(** [self.inspect(pokemon)] on the task's ledger. *)
Definition inspect (pokemon : pokemon_t) : M unit :=
  modify (set_task (fun t => with_caught (Ledger.inspect (caught t) pokemon) t)).

(** *** Sniping *)

Definition nearby_pokemon_id (n : nearby_pokemon) : Z :=
  match n with
  | Wild species _ _ _ => species
  | Catchable species _ _ _ => species
  end.

(** Lines 286-288: the identifiers and the expiry of the creature seen. *)
Definition backfill (n : nearby_pokemon) (p : pokemon_t) : pokemon_t :=
  match n with
  | Wild _ enc spawn t | Catchable _ enc spawn t =>
      mkPokemon (pokemon_id p) (latitude p) (longitude p) enc spawn
        (spawnpoint_id p) (iv p) t (name p) (is_vip p) (priority p) (dist p)
  end.

(** The validation loop of [snipe]; it stops at the first creature of the
    target's species. *)
Fixpoint verify_loop (nearby_pokemons : list nearby_pokemon) (pokemon : pokemon_t)
    (exists_ : bool) : M (bool * pokemon_t) :=
  match nearby_pokemons with
  | [] => ret (exists_, pokemon)
  | nearby :: rest =>
      if nearby_pokemon_id nearby =? pokemon_id pokemon then
        invalid <- (if negb (truthy (encounter_id pokemon)) then ret true
                    else sp <- item "spawnpoint_id" (spawnpoint_id pokemon) ;;
                         ret (negb (truthy sp))) ;;
        ret (true, if invalid then backfill nearby pokemon else pokemon)
      else verify_loop rest pokemon exists_
  end.

Definition snipe_sleep_sec (w : world) : Q :=
  default 2%Q (cfg_snipe_sleep_sec (tconfig (task w))).

Definition snipe (pokemon : pokemon_t) : M WorkerResult :=
  w <- get ;;
  let last_position := (pos_lat (bot w), pos_lon (bot w)) in
  modify (set_bot (heartbeat h)) ;;;
  teleport_to pokemon ;;;
  sleep 2 ;;;
  w <- get ;;
  let exists_ := enable_social (bconfig (bot w)) in
  let verify := negb (enable_social (bconfig (bot w))) in
  r <- (if verify then
          let nearby_stuff := get_meta_cell h (bot w) in
          sleep 2 ;;;
          verify_loop (default [] (wild_pokemons nearby_stuff)
                         ++ default [] (catchable_pokemons nearby_stuff))
            pokemon exists_
        else ret (exists_, pokemon)) ;;
  let '(exists_, pokemon) := r in
  if exists_ then
    encountered pokemon ;;;
    w <- get ;;
    let '(api_encounter_response, b) :=
      create_encounter_api_call h pokemon (tconfig (task w)) (bot w) in
    modify (set_bot (fun _ => b)) ;;;
    sleep (snipe_sleep_sec w) ;;;
    teleport_back last_position ;;;
    modify (set_bot (set_position (fst last_position) (snd last_position) (alt (task w)) false)) ;;;
    sleep (snipe_sleep_sec w) ;;;
    modify (set_bot (heartbeat h)) ;;;
    modify (set_bot (catch_work h pokemon (tconfig (task w)) api_encounter_response)) ;;;
    inspect pokemon ;;;
    ret SUCCESS
  else
    emit_failure (name pokemon +:+ " doesnt exist anymore. Skipping...") ;;;
    inspect pokemon ;;;
    w <- get ;;
    sleep (snipe_sleep_sec w) ;;;
    teleport_back last_position ;;;
    modify (set_bot (set_position (fst last_position) (snd last_position) (alt (task w)) false)) ;;;
    sleep (snipe_sleep_sec w) ;;;
    ret SUCCESS.

(** The loop of the high-priority-only mode, [count] snipes done so far. *)
Fixpoint snipe_chain (pokemon_list : list pokemon_t) (count : Z) : M WorkerResult :=
  match pokemon_list with
  | [] => ret SUCCESS
  | pokemon :: rest =>
      w <- get ;;
      if snipe_high_prio_threshold (task w) <? priority pokemon then
        snipe pokemon ;;;
        let count := count + 1 in
        w <- get ;;
        if default 2 (cfg_snipe_max_in_chain (tconfig (task w))) <=? count then ret SUCCESS
        else
          when (negb (count =? 1)) (sleep (fmul h (snipe_sleep_sec w) 5)) ;;;
          snipe_chain rest count
      else
        when (debug w) (emit_log ("this pokemon is not good enough to snipe "
                                  +:+ str_pokemon h pokemon)) ;;;
        snipe_chain rest count
  end.

(** *** Persistence *)

(** [open(user_data_map_caught, 'w')] raises [IOError] when the file
    cannot be opened for writing, as when the [data] directory is
    missing; nothing is written then. *)
Definition dump_caught_pokemon : M unit :=
  w <- get ;;
  let user_data_map_caught :=
    path_join (path_join (base_dir h) "data") (caught_file_name (username (bconfig (bot w)))) in
  if writable h user_data_map_caught then
    modify (fun w => mkWorld (bot w) (task w) (events w) (requests w)
                       (<[user_data_map_caught := json_dump h (caught (task w))]> (files w))
                       (clock w))
  else raise IOError.

Definition initialize : M unit :=
  w <- get ;;
  let cfg := tconfig (task w) in
  modify (set_task (fun t =>
    mkTask 0 (pokemon_list (bot w)) (distance_unit (bconfig (bot w))) []
      (default 1 (cfg_min_ball cfg)) (default "raw_data" (cfg_map_path cfg))
      (default "StepWalker" (cfg_walker cfg))
      (default false (cfg_snipe_high_prio_only cfg))
      (default 400 (cfg_snipe_high_prio_threshold cfg)) 0 (alt t) cfg)) ;;;
  let data_file := path_join (base_dir h) (caught_file_name (username (bconfig (bot w)))) in
  match files w !! data_file with
  | None => ret tt
  | Some content =>
      match json_load h content with
      | Some l => modify (set_task (with_caught l))
      | None => raise ValueError
      end
  end ;;;
  modify (set_task (fun t =>
    mkTask (last_map_update t) (pokemon_data t) (unit_ t) (caught t) (min_ball t)
      (map_path t) (walker t) (snipe_high_prio_only t) (snipe_high_prio_threshold t)
      (by_pass_times t)
      (uniform h (alt_min (bconfig (bot w))) (alt_max (bconfig (bot w))))
      (tconfig t))).

(** *** Walking *)

(** [_move_to]: the event, then the walker from the factory. *)
Definition move_to (pokemon : pokemon_t) : M (option step_walker) :=
  data <- pokemon_event_data pokemon ;;
  emit_event (mkEvent "move_to_map_pokemon_move_towards"
                "Moving towards {poke_name}, {poke_dist}, left ({disappears_in})" data) ;;;
  w <- get ;;
  ret (walker_factory h (walker (task w)) (latitude pokemon) (longitude pokemon) (bot w)).

(** [_move_to_pokemon_througt_fort]. *)
Definition move_to_pokemon_througt_fort (nearest_fort : fort) (pokemon : pokemon_t) :
    M (option step_walker) :=
  w <- get ;;
  let lat := fort_latitude nearest_fort in
  let lng := fort_longitude nearest_fort in
  let fort_name := default "Unknown" (fort_details h (bot w) (fort_id nearest_fort) lat lng) in
  let unit := distance_unit (bconfig (bot w)) in
  let d := distance h (pos_lat (bot w)) (pos_lon (bot w)) lat lng in
  (if Num.gt d (MAX_DISTANCE_FORT_IS_REACHABLE h) then
     emit_event (mkEvent "moving_to_pokemon_throught_fort"
       "Moving towards {poke_name} - {poke_dist}  through pokestop  {fort_name} - {distance}"
       [("fort_name", EvStr fort_name);
        ("distance", EvStr (format_dist h d unit));
        ("poke_name", EvStr (name pokemon));
        ("poke_dist", EvStr (format_dist h (dist pokemon) (unit_ (task w))))])
   else emit_event (mkEvent "arrived_at_fort" "Arrived at fort." [])) ;;;
  ret (walker_factory h (walker (task w)) lat lng (bot w)).

(** The test of the [while] loop of [get_nearest_fort_on_the_way]: the
    detour through the fort stays below the allowed overhead. *)
Definition on_the_way (w : world) (pokemon : pokemon_t) (f : fort) : bool :=
  let ratio := default 20%Q (cfg_max_extra_dist_fort (tconfig (task w))) in
  let dist_self_to_fort :=
    distance h (pos_lat (bot w)) (pos_lon (bot w)) (fort_latitude f) (fort_longitude f) in
  let dist_fort_to_pokemon :=
    distance h (latitude pokemon) (longitude pokemon) (fort_latitude f) (fort_longitude f) in
  let total_dist := fadd h dist_self_to_fort dist_fort_to_pokemon in
  let dist_self_to_pokemon :=
    distance h (pos_lat (bot w)) (pos_lon (bot w)) (latitude pokemon) (longitude pokemon) in
  Num.lt total_dist (fmul h (fadd h 1 (fdiv h ratio 100)) dist_self_to_pokemon).

(** The [while] loop: [forts[i]] is kept ([i = i + 1]) or deleted. *)
Fixpoint prune_forts (w : world) (pokemon : pokemon_t) (forts : list fort) : list fort :=
  match forts with
  | [] => []
  | f :: rest =>
      if on_the_way w pokemon f then f :: prune_forts w pokemon rest
      else prune_forts w pokemon rest
  end.

Definition get_nearest_fort_on_the_way (pokemon : pokemon_t) : M (option fort) :=
  w <- get ;;
  let forts := get_forts h (bot w) in
  let forts := List.filter (fun x => bool_decide (fort_id x ∉ fort_timeouts (bot w))) forts in
  ret (head (prune_forts w pokemon forts)).

(** *** The tick *)

Definition balls (b : bot_state) : Z :=
  inventory b POKEBALL_ID + inventory b GREATBALL_ID + inventory b ULTRABALL_ID.

(** Lines 333-343: which feed is read, after the rounds to skip. *)
Definition retrieve : M (flow (list pokemon_t)) :=
  w <- get ;;
  if enable_social (bconfig (bot w)) then
    s <- snipe_flag ;;
    skipped <- (if s then
        let n := by_pass_times (task w) + 1 in
        modify (set_task (with_by_pass_times n)) ;;;
        if n <? default 30 (cfg_skip_rounds (tconfig (task w))) then
          when (debug w) (emit_log ("Skipping pass " +:+ pretty n)) ;;;
          ret true
        else
          modify (set_task (with_by_pass_times 0)) ;;;
          ret false
      else ret false) ;;
    if skipped then ret (Return (Some SUCCESS))
    else l <- get_pokemon_from_social ;; ret (Continue l)
  else l <- get_pokemon_from_url ;; ret (Continue l).

(** Lines 379-407: the walk, once the target is chosen and sniping is
    off.  [None] is the end of the function without a [return]. *)
Definition walk (pokemon : pokemon_t) : M (option WorkerResult) :=
  w <- get ;;
  if balls (bot w) <? min_ball (task w) then ret (Some SUCCESS)
  else
    nearest_fort <- get_nearest_fort_on_the_way pokemon ;;
    match (if is_vip pokemon then None else nearest_fort) with
    | None =>
        modify (set_bot (with_capture_locked (LockedTo (pokemon_id pokemon)))) ;;;
        step_walker <- move_to pokemon ;;
        match step_walker with
        | None => raise AttributeError
        | Some sw =>
            w <- get ;;
            let '(arrived, b) := walker_step h sw (bot w) in
            modify (set_bot (fun _ => b)) ;;;
            if negb arrived then
              if Num.lt (dist pokemon) (MAX_DISTANCE_POKEMON_IS_REACHABLE h) then
                encountered pokemon ;;;
                modify (set_bot (with_capture_locked Unlocked)) ;;;
                inspect pokemon ;;;
                ret (Some SUCCESS)
              else ret (Some RUNNING)
            else ret None
        end
    | Some fort =>
        step_walker <- move_to_pokemon_througt_fort fort pokemon ;;
        match step_walker with
        | None => ret (Some RUNNING)
        | Some sw =>
            w <- get ;;
            let '(arrived, b) := walker_step h sw (bot w) in
            modify (set_bot (fun _ => b)) ;;;
            if negb arrived then ret (Some RUNNING) else ret None
        end
    end.

Definition work : M (option WorkerResult) :=
  w <- get ;;
  let pokeballs_quantity := inventory (bot w) POKEBALL_ID in
  let superballs_quantity := inventory (bot w) GREATBALL_ID in
  let ultraballs_quantity := inventory (bot w) ULTRABALL_ID in
  if pokeballs_quantity + superballs_quantity + ultraballs_quantity <? min_ball (task w) then
    when (debug w)
      (emit_log ("Not enough balls to start sniping (have "
                 +:+ pretty (pokeballs_quantity + superballs_quantity + ultraballs_quantity)
                 +:+ ", " +:+ pretty (min_ball (task w)) +:+ " needed)")) ;;;
    ret (Some SUCCESS)
  else
    dump_caught_pokemon ;;;
    fetched <- retrieve ;;
    match fetched with
    | Return r => ret r
    | Continue pokemon_list =>
        pokemon_list <- order_targets pokemon_list ;;
        match pokemon_list with
        | [] =>
            w <- get ;;
            when (debug w) (emit_log "No pokemons in list to snipe") ;;;
            ret (Some SUCCESS)
        | pokemon :: _ =>
            w <- get ;;
            when (debug w)
              (emit_log ("How many pokemon in list: " +:+ pretty (length pokemon_list))) ;;;
            s <- snipe_flag ;;
            if s then
              if snipe_high_prio_only (task w) then
                r <- snipe_chain pokemon_list 0 ;; ret (Some r)
              else
                r <- snipe pokemon ;; ret (Some r)
            else walk pokemon
        end
    end.

End Task.

(** ** Auxiliary notions used by the statements *)

(** What a filter reads and never writes: the trainer's position, the bot
    configuration and the task. *)
Definition ctx (w : world) : Q * Q * Q * bot_config * task_state :=
  (position (bot w), bconfig (bot w), task w).

(** What every ledger built by the task satisfies. *)
Definition ledger_ok (caught : list pokemon_t) : Prop :=
  (length caught <= Ledger.capacity)%nat /\ List.NoDup (map Ledger.key caught).

(** The distance from the trainer to a candidate, as both filters compute
    it. *)
Definition distance_to (h : host) (w : world) (p : pokemon_t) : Q :=
  distance h (pos_lat (bot w)) (pos_lon (bot w)) (latitude p) (longitude p).

(** What the push filter guarantees of a candidate [p] it returns for the
    sighting [raw]. *)
Definition social_accepts (h : host) (w : world) (raw : mqtt_sighting) (p : pokemon_t) : Prop :=
  pokemon_id p = m_pokemon_id raw
  /\ latitude p = m_latitude raw
  /\ longitude p = m_longitude raw
  /\ (exists catch, cfg_catch (tconfig (task w)) = Some catch
                    /\ catch !! name p = Some (priority p))
  /\ Ledger.is_inspected (caught (task w)) p = false
  /\ dist p = distance_to h w p
  /\ Num.gt (dist p) (default 10000%Q (cfg_max_sniping_distance (tconfig (task w)))) = false.

(** The same for the pull filter. *)
Definition url_accepts (h : host) (w : world) (raw : url_sighting) (p : pokemon_t) : Prop :=
  pokemon_id p = u_pokemon_id raw
  /\ latitude p = u_latitude raw
  /\ longitude p = u_longitude raw
  /\ (exists catch, cfg_catch (tconfig (task w)) = Some catch
                    /\ (is_Some (catch !! name p) \/ is_vip p = true)
                    /\ priority p = default 0 (catch !! name p))
  /\ Ledger.is_inspected (caught (task w)) p = false
  /\ dist p = distance_to h w p
  /\ (cfg_snipe (tconfig (task w)) = Some true ->
      exists m, cfg_max_sniping_distance (tconfig (task w)) = Some m
                /\ Num.gt (dist p) m = false)
  /\ (cfg_snipe (tconfig (task w)) = Some false ->
      exists m, cfg_max_walking_distance (tconfig (task w)) = Some m
                /\ Num.gt (dist p) m = false).

(** The sightings the push filter reads: the buffer, if there is one. *)
Definition push_feed (w : world) : list mqtt_sighting :=
  default [] (mqtt_pokemon_list (bot w)).

(** The sightings the pull filter reads: the [pokemons] array of the
    answer to this tick's request, if there is one. *)
Definition pull_feed (h : host) (w : world) : list url_sighting :=
  match cfg_address (tconfig (task w)) with
  | Some address =>
      match http_get h address (length (requests w)) with
      | Body (Some feed) => feed
      | _ => []
      end
  | None => []
  end.




(** The claims' words for the position key: a coordinate rounded to four
    decimal places, as a number of ten-thousandths (nearest, ties to even,
    as the formatting rounds).  As numbers, [-0.0000] and [0.0000] are the
    same. *)
Definition rounded4 (x : Q) : Z :=
  Z.sgn (Qnum x) * Num.round_half_even (Z.abs (Qnum x) * 10000) (Zpos (Qden x)).

(** What the claims call a match of two positions: both coordinates agree
    once rounded. *)
Definition same_rounded_position (p e : pokemon_t) : Prop :=
  rounded4 (latitude p) = rounded4 (latitude e)
  /\ rounded4 (longitude p) = rounded4 (longitude e).

(** ** A concrete host and concrete worlds *)

Module Sample.

(** Distances in metres on a flat grid, exact arithmetic, a walker that
    arrives as soon as the trainer stands within a metre of the
    destination, collaborators that leave the bot alone.  The codec is a
    stand-in (it writes the number of entries and parses nothing); no
    statement below depends on it. *)
Definition grid_distance (lat1 lon1 lat2 lon2 : Q) : Q :=
  Qred ((Qabs (lat2 - lat1) + Qabs (lon2 - lon1)) * 100000).

Definition near (b : bot_state) (sw : step_walker) : bool :=
  Qle_bool (grid_distance (pos_lat b) (pos_lon b) (dest_lat sw) (dest_lng sw)) 1.

Definition sample_host : host :=
  mkHost "/bot" 38 48 grid_distance
    (fun a b => Qred (a + b)) (fun a b => Qred (a * b)) (fun a b => Qred (a / b))
    (fun d u => Num.fmt4 d +:+ u) (fun t => pretty t) Num.fmt4 name
    (fun lo hi => lo)
    (fun l => pretty (length l)) (fun _ => None)
    (fun _ _ => ConnectionError) (fun _ => None)
    (fun b => b)
    (fun _ => mkCell None None)
    (fun _ _ b => (ApiResponse 1, b))
    (fun _ _ _ b => b)
    (fun nm lat lng _ => Some (mkWalker nm lat lng))
    (fun sw b => (near b sw, b))
    (fun _ => [])
    (fun _ _ _ _ => None)
    (fun _ => true).

(** The same host with a given answer of the map server. *)
Definition host_serving (feed : list url_sighting) : host :=
  mkHost "/bot" 38 48 grid_distance
    (fun a b => Qred (a + b)) (fun a b => Qred (a * b)) (fun a b => Qred (a / b))
    (fun d u => Num.fmt4 d +:+ u) (fun t => pretty t) Num.fmt4 name
    (fun lo hi => lo)
    (fun l => pretty (length l)) (fun _ => None)
    (fun _ _ => Body (Some feed)) (fun _ => None)
    (fun b => b)
    (fun _ => mkCell None None)
    (fun _ _ b => (ApiResponse 1, b))
    (fun _ _ _ b => b)
    (fun nm lat lng _ => Some (mkWalker nm lat lng))
    (fun sw b => (near b sw, b))
    (fun _ => [])
    (fun _ _ _ _ => None)
    (fun _ => true).

Definition species : list string := ["Bulbasaur"; "Ivysaur"; "Venusaur"; "Charmander"].

Definition catch_list : gmap string Z :=
  <["Bulbasaur" := 5]> (<["Charmander" := 20]> (<["Ivysaur" := 1]> ∅)).

Definition sample_config (snipe : bool) (max_sniping max_walking : Q) : config :=
  mkConfig (Some 1) None None None None (Some catch_list) None
    (Some max_sniping) (Some max_walking) (Some snipe) (Some "http://map/raw_data")
    None (Some 1) (Some "priority") (Some true) None None.

Definition sample_bot (social : bool) (balls : Z) (buffer : option (list mqtt_sighting)) : bot_state :=
  mkBot (0, 0, 0)%Q Unlocked buffer ∅ species
    (fun i => if i =? POKEBALL_ID then balls else 0)
    (mkBotConfig "ash" social ["Venusaur"] 4 2 "m" 0 0).

Definition sample_task (cfg : config) (caught : list pokemon_t) : task_state :=
  mkTask 0 species "m" caught 1 "raw_data" "StepWalker" false 400 0 0 cfg.

Definition sample_world (b : bot_state) (t : task_state) : world :=
  mkWorld b t [] [] ∅ 1000.

(** A sighting of the push feed, [metres] north of the origin, gone at
    second [expiry]. *)
Definition pushed (id metres expiry : Z) : mqtt_sighting :=
  mkMqtt id (metres # 100000) 0 (IdInt 7) (IdStr "sp") (expiry * 1000).

(** The same on the pull feed. *)
Definition pulled (id metres expiry : Z) : url_sighting :=
  mkUrl id (metres # 100000) 0 (expiry * 1000) (Some IdNone) (Some (IdStr "sp")) None.

(** A candidate as a filter would leave it. *)
Definition candidate (id metres : Z) (nm : string) (vip : bool) (prio : Z) : pokemon_t :=
  mkPokemon id (metres # 100000) 0 (IdStr EmptyString) (IdStr "sp") (Some (IdStr "sp")) (Some 0)
    2000 nm vip prio (inject_Z metres).

(** Two hundred entries at two hundred positions, a hundred metres
    apart. *)
Definition entry (i : nat) : pokemon_t :=
  candidate 1 (100 * Z.of_nat i) "Bulbasaur" false 5.

Definition full_ledger : list pokemon_t :=
  fold_left Ledger.inspect (map entry (seq 0 200)) [].

(** Three candidates of priorities 5, 20 and 1, the last one a VIP or
    not, in a world whose configuration has the given mode and VIP
    switch. *)
Definition trio (vip : bool) : list pokemon_t :=
  [candidate 1 100 "Bulbasaur" false 5; candidate 4 200 "Charmander" false 20;
   candidate 2 300 "Ivysaur" vip 1].


(** A push buffer: a Bulbasaur where the ledger already has an entry, a
    Charmander at 700 m, a Venusaur (VIP, not on the allow-list) at 50 m
    and an Ivysaur 20 km away. *)
Definition push_world : world :=
  sample_world
    (sample_bot true 5 (Some [pushed 1 300 2000; pushed 4 700 2000;
                              pushed 3 50 2000; pushed 2 20000 2000]))
    (sample_task (sample_config true 10000 1000) [entry 3]).

Definition pushed_out : list pokemon_t :=
  match fst (get_pokemon_from_social sample_host push_world) with
  | Ok l => l
  | Raise _ => []
  end.

(** A pull feed: a Bulbasaur at 500 m, a Venusaur at 600 m and a
    Charmander where the ledger already has an entry. *)
Definition pull_feed1 : list url_sighting :=
  [pulled 1 500 2000; pulled 3 600 2000; pulled 4 300 2000].

Definition pull_world (snipe : bool) (max_sniping : Q) : world :=
  sample_world (sample_bot false 5 None)
    (sample_task (sample_config snipe max_sniping 1000) [entry 3]).

Definition pulled_out (snipe : bool) (max_sniping : Q) : list pokemon_t :=
  match fst (get_pokemon_from_url (host_serving pull_feed1) (pull_world snipe max_sniping)) with
  | Ok l => l
  | Raise _ => []
  end.

(** The Venusaur of [pull_feed1] after parsing. *)
Definition venusaur : pokemon_t :=
  mkPokemon 3 (600 # 100000) 0 (IdStr EmptyString) (IdStr "sp") (Some (IdStr "sp")) (Some 0)
    2000 "Venusaur" true 0 0.

(** A trainer on foot (sniping off, pull feed) with five balls and an
    empty ledger. *)
Definition walk_world : world :=
  sample_world (sample_bot false 5 None)
    (sample_task (sample_config false 10000 1000) []).

(** A Venusaur (VIP) [metres] north of the trainer, as the pull filter
    returns it. *)
Definition vip_target (metres : Z) : pokemon_t :=
  mkPokemon 3 (metres # 100000) 0 (IdStr EmptyString) (IdStr "sp") (Some (IdStr "sp")) (Some 0)
    2000 "Venusaur" true 0 (inject_Z metres).

(** The trainer without a ball. *)
Definition empty_handed : world :=
  sample_world (sample_bot true 0 (Some [pushed 4 700 2000]))
    (sample_task (sample_config false 10000 1000) []).

End Sample.

(** ** Further notions used by the statements *)

(** A result in feed order: every candidate is taken for a sighting of
    the feed, the sightings are met in the order of the feed and each one
    gives at most one candidate. *)
Inductive picked {A : Type} (R : A -> pokemon_t -> Prop) : list A -> list pokemon_t -> Prop :=
| picked_nil : picked R [] []
| picked_skip raw feed l : picked R feed l -> picked R (raw :: feed) l
| picked_take raw feed p l : R raw p -> picked R feed l -> picked R (raw :: feed) (p :: l).

(** A world that differs from another one by emitted events only. *)
Definition only_events (w w' : world) : Prop :=
  bot w' = bot w /\ task w' = task w /\ requests w' = requests w
  /\ files w' = files w /\ clock w' = clock w
  /\ exists evs, events w' = (events w ++ evs)%list.

(** How far a trainer walking at the mean configured speed gets before
    the candidate disappears, [now] being the second the filter started. *)
Definition reach (h : host) (w : world) (now : Z) (p : pokemon_t) : Q :=
  fmul h (inject_Z (disappear_time p - now)) (mean_walk_speed h w).

(** What both filters compute for a candidate besides its position: the
    species name from the table, the VIP flag, the priority from the
    allow-list and, unless sniping is on, a distance within the walking
    range and within reach. *)
Definition enriched (h : host) (w : world) (now : Z) (p : pokemon_t) : Prop :=
  py_nth (pokemon_data (task w)) (pokemon_id p - 1) = Some (name p)
  /\ is_vip p = bool_decide (name p ∈ vips (bconfig (bot w)))
  /\ (exists catch, cfg_catch (tconfig (task w)) = Some catch
                    /\ priority p = default 0 (catch !! name p))
  /\ (cfg_snipe (tconfig (task w)) <> Some true ->
      Num.gt (dist p) (default 1000%Q (cfg_max_walking_distance (tconfig (task w)))) = false
      /\ Num.gt (dist p) (reach h w now p) = false).

(** The failure event of [_emit_failure]. *)
Definition failure_event (msg : string) : event :=
  mkEvent "move_to_map_pokemon_fail" "Failure! {message}" [("message", EvStr msg)].

(** The number of events of a given name. *)
Definition count_events (nm : string) (evs : list event) : nat :=
  length (List.filter (fun e => String.eqb (ev_name e) nm) evs).

(** The candidates [snipe_chain] teleports to: those above the priority
    threshold. *)
Definition worth_sniping (threshold : Z) (l : list pokemon_t) : list pokemon_t :=
  List.filter (fun p => threshold <? priority p) l.

(** The forts [get_nearest_fort_on_the_way] may return: not on timeout and
    on the way. *)
Definition eligible_fort (h : host) (w : world) (p : pokemon_t) (f : fort) : bool :=
  bool_decide (fort_id f ∉ fort_timeouts (bot w)) && on_the_way h w p f.

(** The test of line 285: an identifier of the target is missing. *)
Definition ids_invalid (p : pokemon_t) : option bool :=
  if negb (truthy (encounter_id p)) then Some true
  else match spawnpoint_id p with
       | Some sp => Some (negb (truthy sp))
       | None => None
       end.

(** ** More concrete hosts and worlds *)

Module Field.

Import Sample.

(** The sample host with waypoints around and a given species seen near
    the trainer. *)
Definition host_with (forts : list fort) (cell : meta_cell) : host :=
  mkHost (base_dir sample_host) (MAX_DISTANCE_FORT_IS_REACHABLE sample_host)
    (MAX_DISTANCE_POKEMON_IS_REACHABLE sample_host) (distance sample_host)
    (fadd sample_host) (fmul sample_host) (fdiv sample_host)
    (format_dist sample_host) (format_time sample_host) (str_num sample_host)
    (str_pokemon sample_host) (uniform sample_host)
    (json_dump sample_host) (fun _ => Some [entry 7])
    (http_get sample_host) (b64_long sample_host)
    (heartbeat sample_host) (fun _ => cell)
    (create_encounter_api_call sample_host) (catch_work sample_host)
    (walker_factory sample_host) (walker_step sample_host)
    (fun _ => forts) (fort_details sample_host) (writable sample_host).

(** A waypoint [north] metres north and [east] metres east of the
    origin. *)
Definition stop (id : string) (north east : Z) : fort :=
  mkFort id (north # 100000) (east # 100000).

(** A Bulbasaur (not a VIP) [metres] north of the trainer. *)
Definition plain_target (metres : Z) : pokemon_t :=
  candidate 1 metres "Bulbasaur" false 5.

(** Three waypoints: one far off the way, one on the way, one on the way
    but farther. *)
Definition stops : list fort :=
  [stop "off" 0 900; stop "near" 200 10; stop "far" 400 0].

(** The walking trainer with the waypoint [timed_out] on timeout. *)
Definition walker_world (timed_out : gset string) : world :=
  mkWorld
    (mkBot (0, 0, 0)%Q Unlocked None timed_out species
       (fun i => if i =? POKEBALL_ID then 5 else 0)
       (mkBotConfig "ash" false ["Venusaur"] 4 2 "m" 0 0))
    (sample_task (sample_config false 10000 1000) []) [] [] ∅ 1000.

(** A sniping trainer on the pull feed whose configuration allows [chain]
    snipes in a row. *)
Definition chain_world (chain : Z) : world :=
  sample_world (sample_bot false 5 None)
    (mkTask 0 species "m" [] 1 "raw_data" "StepWalker" true 4 0 0
       (mkConfig (Some 1) None None (Some true) (Some 4) (Some catch_list) None
          (Some 10000%Q) (Some 1000%Q) (Some true) (Some "http://map/raw_data")
          None (Some 1) (Some "priority") (Some false) (Some chain) None)).

(** The trainer at process start: the task object still has the state of
    a previous run ([stale] in the ledger), and the file [initialize]
    looks for exists. *)
Definition restart_world (stale : list pokemon_t) : world :=
  mkWorld (sample_bot false 5 None)
    (mkTask 77 [] "km" stale 3 "old" "Other" true 9 4 0 (sample_config true 10000 1000))
    [] []
    {[ path_join (base_dir sample_host) (caught_file_name "ash") := "[entry]" ]} 1000.

(** The sample host on a disk without a [data] directory: nothing can be
    opened for writing. *)
Definition host_without_data : host :=
  mkHost (base_dir sample_host) (MAX_DISTANCE_FORT_IS_REACHABLE sample_host)
    (MAX_DISTANCE_POKEMON_IS_REACHABLE sample_host) (distance sample_host)
    (fadd sample_host) (fmul sample_host) (fdiv sample_host)
    (format_dist sample_host) (format_time sample_host) (str_num sample_host)
    (str_pokemon sample_host) (uniform sample_host)
    (json_dump sample_host) (json_load sample_host)
    (http_get sample_host) (b64_long sample_host)
    (heartbeat sample_host) (get_meta_cell sample_host)
    (create_encounter_api_call sample_host) (catch_work sample_host)
    (walker_factory sample_host) (walker_step sample_host)
    (get_forts sample_host) (fort_details sample_host) (fun _ => false).

(** A ledger entry a metre north of the equator and a sighting of a
    Charmander a metre south of it, on the push feed and on the pull
    feed: the two latitudes round to the same four decimals and print
    differently. *)
Definition north_entry : pokemon_t := candidate 1 1 "Bulbasaur" false 5.

Definition south_target : pokemon_t := candidate 4 (-1) "Charmander" false 20.

Definition equator_push_world : world :=
  sample_world (sample_bot true 5 (Some [pushed 4 (-1) 2000]))
    (sample_task (sample_config false 10000 1000) [north_entry]).

Definition equator_pull_world : world :=
  sample_world (sample_bot false 5 None)
    (sample_task (sample_config false 10000 1000) [north_entry]).

End Field.

(** * Properties *)

(** ** The ledger *)

Lemma same_spot_key p c : Ledger.same_spot p c = true <-> Ledger.key p = Ledger.key c.
Proof.
  unfold Ledger.same_spot, Ledger.key. rewrite andb_true_iff, !String.eqb_eq.
  split; [intros [-> ->]; reflexivity | intros [= -> ->]; auto].
Qed.

Lemma same_spot_refl p : Ledger.same_spot p p = true.
Proof. apply same_spot_key. reflexivity. Qed.

Lemma is_inspected_true caught p :
  Ledger.is_inspected caught p = true <->
  exists e, In e caught /\ Ledger.key p = Ledger.key e.
Proof.
  induction caught as [|c caught IH]; simpl.
  - split; [discriminate | intros (e & [] & _)].
  - destruct (Ledger.same_spot p c) eqn:E.
    + split; [intros _ | reflexivity]. exists c. split; [now left | now apply same_spot_key].
    + rewrite IH. split; intros (e & He & Hk).
      * exists e. split; [now right | assumption].
      * destruct He as [<- | He]; [| now exists e].
        apply same_spot_key in Hk. congruence.
Qed.

Lemma is_inspected_false caught p :
  Ledger.is_inspected caught p = false <->
  forall e, In e caught -> Ledger.key p <> Ledger.key e.
Proof.
  rewrite <- not_true_iff_false, is_inspected_true. split.
  - intros H e He Hk. apply H. now exists e.
  - intros H (e & He & Hk). now apply (H e).
Qed.

Lemma inspect_scan_is_inspected caught p :
  Ledger.inspect_scan caught p = None <-> Ledger.is_inspected caught p = true.
Proof.
  induction caught as [|c caught IH]; simpl; [easy |].
  destruct (Ledger.same_spot p c); [easy | exact IH].
Qed.

Lemma inspect_known caught p :
  Ledger.is_inspected caught p = true -> Ledger.inspect caught p = caught.
Proof.
  intros H. apply inspect_scan_is_inspected in H. unfold Ledger.inspect. now rewrite H.
Qed.

Lemma inspect_new caught p :
  Ledger.is_inspected caught p = false ->
  Ledger.inspect caught p =
    ((if (Ledger.capacity <=? length caught)%nat then tl caught else caught) ++ [p])%list.
Proof.
  intros H. unfold Ledger.inspect.
  destruct (Ledger.inspect_scan caught p) eqn:E; [reflexivity |].
  apply inspect_scan_is_inspected in E. congruence.
Qed.

Lemma is_inspected_app caught more p :
  Ledger.is_inspected (caught ++ more)%list p =
  Ledger.is_inspected caught p || Ledger.is_inspected more p.
Proof.
  induction caught as [|c caught IH]; simpl; [reflexivity |].
  destruct (Ledger.same_spot p c); [reflexivity | exact IH].
Qed.

Lemma is_inspected_after caught p : Ledger.is_inspected (Ledger.inspect caught p) p = true.
Proof.
  destruct (Ledger.is_inspected caught p) eqn:E.
  - now rewrite inspect_known.
  - rewrite inspect_new by assumption. rewrite is_inspected_app. simpl.
    rewrite same_spot_refl. apply orb_true_r.
Qed.

Lemma NoDup_tl {A} (l : list A) : List.NoDup l -> List.NoDup (tl l).
Proof. destruct l; simpl; [auto | now inversion 1]. Qed.

Lemma map_tail {A B} (f : A -> B) (l : list A) : map f (tl l) = tl (map f l).
Proof. now destruct l. Qed.

Lemma In_tl {A} (x : A) (l : list A) : In x (tl l) -> In x l.
Proof. destruct l; simpl; auto. Qed.

Lemma NoDup_snoc {A} (l : list A) (x : A) :
  List.NoDup l -> ~ In x l -> List.NoDup (l ++ [x])%list.
Proof.
  induction l as [|y l IH]; simpl; intros Hnd Hx.
  - constructor; [easy | constructor].
  - inversion Hnd; subst. constructor.
    + rewrite in_app_iff. simpl. intuition congruence.
    + apply IH; [assumption | tauto].
Qed.

Lemma inspect_ok caught p : ledger_ok caught -> ledger_ok (Ledger.inspect caught p).
Proof.
  intros [Hlen Hnd]. destruct (Ledger.is_inspected caught p) eqn:E.
  - now rewrite inspect_known.
  - rewrite inspect_new by assumption.
    assert (Hfresh : forall l, (forall e, In e l -> In e caught) -> ~ In (Ledger.key p) (map Ledger.key l)).
    { intros l Hl Hin. apply in_map_iff in Hin as (e & Hk & He).
      rewrite is_inspected_false in E. apply (E e); auto. }
    unfold ledger_ok. rewrite map_app, length_app. cbn [length map].
    destruct (Nat.leb_spec Ledger.capacity (length caught)).
    + split.
      * assert (Ledger.capacity = 200%nat) by reflexivity.
        destruct caught; cbn [tl length] in *; lia.
      * apply NoDup_snoc; [| apply Hfresh; intros e; apply In_tl].
        rewrite map_tail. now apply NoDup_tl.
    + split; [lia |].
      apply NoDup_snoc; auto.
Qed.

Lemma built_ok caught : Ledger.built caught -> ledger_ok caught.
Proof.
  induction 1 as [| caught p _ IH].
  - split; [simpl; lia | constructor].
  - now apply inspect_ok.
Qed.

Lemma built_fold ps caught :
  Ledger.built caught -> Ledger.built (fold_left Ledger.inspect ps caught).
Proof.
  revert caught. induction ps as [|p ps IH]; simpl; intros caught H; [assumption |].
  apply IH. now constructor.
Qed.

(** C10, as the code has it: a target whose position, printed with four
    decimals, is the printed position of a ledger entry leaves the ledger
    as it is, and so inspecting twice at one position is the same as
    inspecting once.  The key is the pair of strings, not the pair of
    rounded numbers. *)
Theorem C10_inspect_idempotent (caught : list pokemon_t) (p : pokemon_t) :
  ((exists e, In e caught /\ Ledger.key p = Ledger.key e) ->
     Ledger.inspect caught p = caught)
  /\ (forall q, Ledger.key q = Ledger.key p ->
        Ledger.inspect (Ledger.inspect caught p) q = Ledger.inspect caught p).
Proof.
  split.
  - intros H. apply inspect_known. now apply is_inspected_true.
  - intros q Hq. apply inspect_known. apply is_inspected_true.
    pose proof (is_inspected_after caught p) as H.
    apply is_inspected_true in H as (e & He & Hk).
    exists e. split; [assumption | congruence].
Qed.

(** C4: after an [inspect] a ledger of at most 200 entries at 200
    different printed positions is again such a ledger; at 200 entries a
    new position pushes out the entry at the front, the earliest one
    still held, the others move up in their order with the new one at the
    end, and the entry pushed out is not matched by [is_inspected] any
    more. *)
Theorem C4_ledger_bounded_fifo (caught : list pokemon_t) (p : pokemon_t) :
  ledger_ok caught ->
  (length (Ledger.inspect caught p) <= 200)%nat
  /\ ledger_ok (Ledger.inspect caught p)
  /\ (length caught = 200%nat ->
      Ledger.is_inspected caught p = false ->
      exists oldest rest,
        caught = oldest :: rest
        /\ Ledger.inspect caught p = (rest ++ [p])%list
        /\ Ledger.is_inspected (Ledger.inspect caught p) oldest = false).
Proof.
  intros Hok. split; [apply (inspect_ok caught p Hok) |].
  split; [apply (inspect_ok caught p Hok) |].
  intros Hlen Hnew. destruct caught as [|oldest rest]; [discriminate |].
  exists oldest, rest. split; [reflexivity |].
  rewrite inspect_new by assumption. rewrite Hlen. simpl. split; [reflexivity |].
  rewrite is_inspected_app. simpl. apply orb_false_iff. split.
  - apply is_inspected_false. intros e He Hk.
    destruct Hok as [_ Hnd]. simpl in Hnd. inversion Hnd; subst.
    apply H1. rewrite Hk. now apply in_map.
  - rewrite is_inspected_false in Hnew.
    destruct (Ledger.same_spot oldest p) eqn:E; [| reflexivity].
    apply same_spot_key in E. exfalso. apply (Hnew oldest); [now left | congruence].
Qed.

Lemma C10_inspect_idempotent_witness :
  Ledger.inspect [Sample.entry 3] (Sample.candidate 4 302 "Charmander" false 20) = [Sample.entry 3].
Proof.
  apply (proj1 (C10_inspect_idempotent [Sample.entry 3] (Sample.candidate 4 302 "Charmander" false 20))).
  exists (Sample.entry 3). split; [now left | vm_compute; reflexivity].
Defined.

(** The claim's rounded key does not give C10: a target a metre south of
    the equator and a ledger entry a metre north of it agree on both
    coordinates once rounded to four decimals, and [inspect] appends the
    target all the same, because the latitudes print as [-0.0000] and
    [0.0000]. *)
Lemma C10_rounded_key_counterexample :
  same_rounded_position Field.south_target Field.north_entry
  /\ Num.fmt4 (latitude Field.south_target) = "-0.0000"
  /\ Num.fmt4 (latitude Field.north_entry) = "0.0000"
  /\ Ledger.inspect [Field.north_entry] Field.south_target
     = [Field.north_entry; Field.south_target].
Proof. repeat split; vm_compute; reflexivity. Qed.

Lemma C4_ledger_bounded_fifo_witness :
  (length (Ledger.inspect (map Sample.entry (seq 0 200)) (Sample.entry 200)) <= 200)%nat
  /\ Ledger.is_inspected (Ledger.inspect (map Sample.entry (seq 0 200)) (Sample.entry 200))
       (Sample.entry 0) = false.
Proof.
  assert (Hok : ledger_ok (map Sample.entry (seq 0 200))).
  { split.
    - apply Nat.leb_le. vm_compute. reflexivity.
    - apply NoDup_ListNoDup. apply (bool_decide_unpack _). vm_compute. reflexivity. }
  destruct (C4_ledger_bounded_fifo (map Sample.entry (seq 0 200)) (Sample.entry 200) Hok)
    as (Hlen & _ & Hfifo).
  split; [exact Hlen |].
  destruct (Hfifo ltac:(vm_compute; reflexivity) ltac:(vm_compute; reflexivity))
    as (oldest & rest & Hc & _ & Hgone).
  assert (oldest = Sample.entry 0) as <-; [| exact Hgone].
  assert (H : head (map Sample.entry (seq 0 200)) = Some (Sample.entry 0))
    by (vm_compute; reflexivity).
  rewrite Hc in H. now injection H.
Defined.

(** ** The filters *)

Ltac munfold :=
  unfold snipe_flag, and_then, emit_failure, emit_log, when, item, emit_event, time_now, sleep,
    modify, get, bind, ret, raise in *.

Ltac mcase :=
  repeat match goal with
  | H : (_, _) = (_, _) |- _ => inversion H; subst; clear H
  | H : context [match ?x with _ => _ end] |- _ => destruct x eqn:?; simpl in H
  | H : context [if ?x then _ else _] |- _ => destruct x eqn:?; simpl in H
  end.

Section Loop.

Context {A : Type} (body : A -> M (option pokemon_t)).

(** The loop only ever appends. *)
Lemma for_each_keeps feed : forall acc w res w',
  for_each body feed acc w = (Ok res, w') -> forall p, In p acc -> In p res.
Proof.
  induction feed as [|raw rest IH]; intros acc w res w' H p Hp.
  - simpl in H. munfold. now inversion H; subst.
  - simpl in H. unfold bind in H. destruct (body raw w) as [[r|e] w1]; [| discriminate].
    apply (IH _ _ _ _ H). destruct r; [apply in_or_app; now left | assumption].
Qed.

(** Every candidate of the result was appended for some sighting of the
    feed, in a world reached through the rounds before. *)
Lemma for_each_sound (I : world -> Prop) (R : A -> pokemon_t -> Prop) :
  (forall raw w r w', I w -> body raw w = (Ok r, w') -> I w') ->
  (forall raw w p w', I w -> body raw w = (Ok (Some p), w') -> R raw p) ->
  forall feed acc w res w',
    I w -> for_each body feed acc w = (Ok res, w') ->
    forall p, In p res -> In p acc \/ exists raw, In raw feed /\ R raw p.
Proof.
  intros HI HR. induction feed as [|raw rest IH]; intros acc w res w' Hw H p Hp.
  - simpl in H. munfold. inversion H; subst. now left.
  - simpl in H. unfold bind in H. destruct (body raw w) as [[r|e] w1] eqn:E; [| discriminate].
    destruct (IH _ _ _ _ (HI _ _ _ _ Hw E) H p Hp) as [Hacc | (raw' & Hin & Hraw)].
    + destruct r as [q|]; [| now left].
      apply in_app_or in Hacc as [Hacc | [<- | []]]; [now left |].
      right. exists raw. split; [now left | exact (HR _ _ _ _ Hw E)].
    + right. exists raw'. split; [now right | assumption].
Qed.

(** A sighting whose round can only end in an append, or in an exception,
    is in the result whenever there is one. *)
Lemma for_each_complete (I : world -> Prop) (raw : A) (p : pokemon_t) :
  (forall x w r w', I w -> body x w = (Ok r, w') -> I w') ->
  (forall w r w', I w -> body raw w = (Ok r, w') -> r = Some p) ->
  forall feed acc w res w',
    I w -> In raw feed -> for_each body feed acc w = (Ok res, w') -> In p res.
Proof.
  intros HI Hraw. induction feed as [|x rest IH]; intros acc w res w' Hw Hin H; [easy |].
  simpl in H. unfold bind in H. destruct (body x w) as [[r|e] w1] eqn:E; [| discriminate].
  destruct Hin as [-> | Hin].
  - rewrite (Hraw _ _ _ Hw E) in H.
    apply (for_each_keeps _ _ _ _ _ H). apply in_or_app. right. now left.
  - exact (IH _ _ _ _ (HI _ _ _ _ Hw E) Hin H).
Qed.

End Loop.

Lemma same_spot_coords p q c :
  latitude p = latitude q -> longitude p = longitude q ->
  Ledger.same_spot p c = Ledger.same_spot q c.
Proof. unfold Ledger.same_spot. now intros -> ->. Qed.

Lemma is_inspected_coords caught p q :
  latitude p = latitude q -> longitude p = longitude q ->
  Ledger.is_inspected caught p = Ledger.is_inspected caught q.
Proof.
  intros Hlat Hlon. induction caught as [|c caught IH]; simpl; [reflexivity |].
  now rewrite (same_spot_coords p q c), IH.
Qed.

Lemma ctx_inv w w' :
  ctx w' = ctx w ->
  position (bot w') = position (bot w) /\ bconfig (bot w') = bconfig (bot w) /\ task w' = task w.
Proof. unfold ctx. now intros [= -> -> ->]. Qed.

Lemma social_body_ctx h now raw w r w' :
  social_body h now raw w = (r, w') -> ctx w' = ctx w.
Proof. unfold social_body. munfold. intros H. mcase; reflexivity. Qed.

Lemma url_body_ctx h now raw w r w' :
  url_body h now raw w = (r, w') -> ctx w' = ctx w.
Proof. unfold url_body. munfold. intros H. mcase; reflexivity. Qed.

Lemma social_body_sound h now raw w p w' :
  social_body h now raw w = (Ok (Some p), w') -> social_accepts h w raw p.
Proof.
  unfold social_body. munfold. intros H. mcase.
  all: unfold social_accepts, distance_to; simpl.
  all: repeat split; try reflexivity; eauto.
  all: try (erewrite is_inspected_coords; [eassumption | reflexivity | reflexivity]).
  all: try (apply negb_false_iff; apply negb_true_iff; assumption).
  all: try assumption.
Qed.

Lemma url_parse_coords h w raw p :
  url_parse h w raw = Some p ->
  pokemon_id p = u_pokemon_id raw /\ latitude p = u_latitude raw /\ longitude p = u_longitude raw.
Proof.
  unfold url_parse. intros H.
  destruct (u_encounter_id raw) as [enc_raw|]; simpl in H; [| discriminate].
  match type of H with context [mbind _ ?o] => destruct o as [enc|] end; simpl in H; [| discriminate].
  destruct (u_spawnpoint_id raw) as [sp_raw|]; simpl in H; [| discriminate].
  destruct (py_nth _ _) as [nm|]; simpl in H; [| discriminate].
  injection H as <-. now simpl.
Qed.

Lemma url_body_sound h now raw w p w' :
  url_body h now raw w = (Ok (Some p), w') -> url_accepts h w raw p.
Proof.
  unfold url_body. intros H.
  unfold get, bind at 1 in H.
  destruct (url_parse h w raw) as [p0|] eqn:Hparse.
  2:{ munfold. discriminate. }
  apply url_parse_coords in Hparse as (Hid & Hlat & Hlon).
  munfold. mcase.
  all: unfold url_accepts, distance_to; simpl.
  all: repeat split; try assumption; try reflexivity.
  all: try (eexists; split; [eassumption |]; split; [| reflexivity]).
  all: try (erewrite is_inspected_coords; [eassumption | reflexivity | reflexivity]).
  all: try match goal with
       | H : bool_decide _ && negb ?v = false |- _ \/ ?v = true =>
           apply andb_false_iff in H as [H | H];
           [left; apply bool_decide_eq_false in H; now apply not_eq_None_Some
           | right; now apply negb_false_iff in H]
       end.
  all: intros Hs.
  all: repeat match goal with b : bool |- _ => destruct b end.
  all: simpl in *; try discriminate; try congruence.
  all: eexists; (split; [eassumption |]); assumption.
Qed.

Lemma distance_to_ctx h w w' p : ctx w' = ctx w -> distance_to h w' p = distance_to h w p.
Proof.
  intros H. apply ctx_inv in H as (Hp & _ & _).
  unfold distance_to, pos_lat, pos_lon. now rewrite Hp.
Qed.

Lemma social_accepts_ctx h w w' raw p :
  ctx w' = ctx w -> social_accepts h w' raw p -> social_accepts h w raw p.
Proof.
  intros H. unfold social_accepts. rewrite (distance_to_ctx h w w' p H).
  apply ctx_inv in H as (_ & _ & ->). auto.
Qed.

Lemma url_accepts_ctx h w w' raw p :
  ctx w' = ctx w -> url_accepts h w' raw p -> url_accepts h w raw p.
Proof.
  intros H. unfold url_accepts. rewrite (distance_to_ctx h w w' p H).
  apply ctx_inv in H as (_ & _ & ->). auto.
Qed.

Lemma social_result h w l :
  fst (get_pokemon_from_social h w) = Ok l ->
  forall p, In p l -> exists raw, In raw (push_feed w) /\ social_accepts h w raw p.
Proof.
  unfold get_pokemon_from_social, push_feed. unfold get, bind at 1.
  destruct (mqtt_pokemon_list (bot w)) as [[|raw0 feed]|] eqn:Hbuf; cbv beta iota; cbn [default].
  1, 3: (unfold ret; simpl; intros [= <-] p []).
  unfold time_now, modify, bind. intros H p Hp.
  match type of H with
  | context [for_each ?b ?f ?acc ?w1] => destruct (for_each b f acc w1) as [r w'] eqn:E
  end.
  simpl in H. subst r.
  assert (HI : forall raw w0 (r : option pokemon_t) w1,
             ctx w0 = ctx w -> social_body h (Num.py_int (clock w)) raw w0 = (Ok r, w1) -> ctx w1 = ctx w).
  { intros raw w0 r w1 Hw0 Hb. rewrite <- Hw0. exact (social_body_ctx _ _ _ _ _ _ Hb). }
  assert (HR : forall raw w0 q w1,
             ctx w0 = ctx w -> social_body h (Num.py_int (clock w)) raw w0 = (Ok (Some q), w1) ->
             social_accepts h w raw q).
  { intros raw w0 q w1 Hw0 Hb. apply (social_accepts_ctx _ _ _ _ _ Hw0).
    exact (social_body_sound _ _ _ _ _ _ Hb). }
  match type of E with
  | for_each _ _ _ ?w1 = _ =>
      destruct (for_each_sound _ _ _ HI HR _ _ w1 _ _ eq_refl E p Hp) as [[] | Hraw]
  end.
  exact Hraw.
Qed.

Lemma url_result h w l :
  fst (get_pokemon_from_url h w) = Ok l ->
  forall p, In p l -> exists raw, In raw (pull_feed h w) /\ url_accepts h w raw p.
Proof.
  unfold get_pokemon_from_url, pull_feed, fetch. unfold get, bind at 1.
  destruct (cfg_address (tconfig (task w))) as [address|]; simpl.
  2:{ unfold raise. simpl. discriminate. }
  unfold ret at 1. unfold bind at 1. unfold bind at 1. unfold modify, get, ret at 1. simpl.
  destruct (http_get h address (length (requests w))) as [| |[feed|]].
  1, 2: (unfold emit_failure, emit_event, bind, modify, ret; simpl; intros [= <-] p []).
  2:{ unfold time_now, bind, item, raise. simpl. discriminate. }
  unfold time_now, item, bind, ret at 1. cbv beta iota. intros H p Hp.
  match type of H with
  | context [for_each ?b ?f ?acc ?w1] => destruct (for_each b f acc w1) as [r w'] eqn:E
  end.
  simpl in H. subst r.
  assert (HI : forall raw w0 (r : option pokemon_t) w1,
             ctx w0 = ctx w -> url_body h (Num.py_int (clock w)) raw w0 = (Ok r, w1) -> ctx w1 = ctx w).
  { intros raw w0 r w1 Hw0 Hb. rewrite <- Hw0. exact (url_body_ctx _ _ _ _ _ _ Hb). }
  assert (HR : forall raw w0 q w1,
             ctx w0 = ctx w -> url_body h (Num.py_int (clock w)) raw w0 = (Ok (Some q), w1) ->
             url_accepts h w raw q).
  { intros raw w0 q w1 Hw0 Hb. apply (url_accepts_ctx _ _ _ _ _ Hw0).
    exact (url_body_sound _ _ _ _ _ _ Hb). }
  match type of E with
  | for_each _ _ _ ?w1 = _ =>
      destruct (for_each_sound _ _ _ HI HR _ _ w1 _ _ eq_refl E p Hp) as [[] | Hraw]
  end.
  exact Hraw.
Qed.

Lemma url_parse_ctx h w w' raw : ctx w' = ctx w -> url_parse h w' raw = url_parse h w raw.
Proof. intros H. apply ctx_inv in H as (_ & Hc & Ht). unfold url_parse. now rewrite Hc, Ht. Qed.

Lemma reach_ctx h w w' now p : ctx w' = ctx w -> reach h w' now p = reach h w now p.
Proof.
  intros H. apply ctx_inv in H as (_ & Hc & _). unfold reach, mean_walk_speed. now rewrite Hc.
Qed.

(** In pull mode a VIP outside the allow-list that is not in the ledger
    is appended when it passes the distance tests of the mode: the sniping
    range with sniping on, the walking range and the reach without. *)
Lemma url_body_vip h now raw w p0 catch :
  url_parse h w raw = Some p0 ->
  cfg_catch (tconfig (task w)) = Some catch ->
  catch !! name p0 = None ->
  is_vip p0 = true ->
  Ledger.is_inspected (caught (task w)) p0 = false ->
  (cfg_snipe (tconfig (task w)) = Some true ->
   forall m, cfg_max_sniping_distance (tconfig (task w)) = Some m ->
             Num.gt (distance_to h w p0) m = false) ->
  (cfg_snipe (tconfig (task w)) <> Some true ->
   (forall m, cfg_max_walking_distance (tconfig (task w)) = Some m ->
              Num.gt (distance_to h w p0) m = false)
   /\ Num.gt (distance_to h w p0) (reach h w now p0) = false) ->
  forall w1 r w2,
    ctx w1 = ctx w -> url_body h now raw w1 = (Ok r, w2) ->
    r = Some (with_priority_dist 0 (distance_to h w p0) p0).
Proof.
  intros Hparse Hcatch Hname Hvip Hnew Hsnipe Hwalk w1 r w2 Hctx.
  pose proof (url_parse_ctx h w w1 raw Hctx) as Hparse1. rewrite Hparse in Hparse1.
  pose proof (distance_to_ctx h w w1 p0 Hctx) as Hd.
  pose proof (reach_ctx h w w1 now p0 Hctx) as Hr.
  unfold distance_to in Hd, Hsnipe, Hwalk |- *. unfold reach in Hr, Hwalk.
  apply ctx_inv in Hctx as (_ & _ & Ht).
  destruct w1 as [b1 t1 ev1 rq1 fs1 ck1]. cbn [task bot] in *. subst t1.
  unfold url_body. munfold. cbn [task bot]. rewrite Hparse1, Hcatch, Hname, Hvip, Hnew.
  rewrite bool_decide_eq_true_2 by reflexivity. cbn [negb andb default].
  unfold debug. cbn [task bot with_priority_dist disappear_time name].
  rewrite Hd, Hr.
  destruct (cfg_max_sniping_distance (tconfig (task w))) as [ms|]; [| discriminate].
  destruct (cfg_max_walking_distance (tconfig (task w))) as [mw|] eqn:Hmw.
  - assert (Hfar : cfg_snipe (tconfig (task w)) = Some true ->
                   Num.gt (distance h (pos_lat (bot w)) (pos_lon (bot w))
                             (latitude p0) (longitude p0)) ms = false)
      by (intros Hs; exact (Hsnipe Hs ms eq_refl)).
    assert (Hnear : cfg_snipe (tconfig (task w)) <> Some true ->
                    Num.gt (distance h (pos_lat (bot w)) (pos_lon (bot w))
                              (latitude p0) (longitude p0)) mw = false
                    /\ Num.gt (distance h (pos_lat (bot w)) (pos_lon (bot w))
                                 (latitude p0) (longitude p0))
                         (fmul h (inject_Z (disappear_time p0 - now)) (mean_walk_speed h w))
                       = false)
      by (intros Hs; destruct (Hwalk Hs) as [H1 H2]; split; [exact (H1 mw eq_refl) | exact H2]).
    clear Hsnipe Hwalk.
    destruct (cfg_snipe (tconfig (task w))) as [[|]|] eqn:Hs.
    + rewrite (Hfar eq_refl). clear Hfar Hnear.
      repeat (first [ rewrite Hs
                    | match goal with
                      | |- context [if Num.gt ?a ?b then _ else _] => destruct (Num.gt a b)
                      end ];
              cbn [task bot negb]).
      all: intros [= <-]; reflexivity.
    + destruct Hnear as [H1 H2]; [discriminate |]. rewrite H1, H2. clear Hfar H1 H2.
      repeat (first [ rewrite Hs
                    | match goal with
                      | |- context [if Num.gt ?a ?b then _ else _] => destruct (Num.gt a b)
                      end ];
              cbn [task bot negb]).
      all: intros [= <-]; reflexivity.
    + destruct Hnear as [H1 H2]; [discriminate |]. rewrite H1, H2. clear Hfar H1 H2.
      repeat (first [ rewrite Hs
                    | match goal with
                      | |- context [if Num.gt ?a ?b then _ else _] => destruct (Num.gt a b)
                      end ];
              cbn [task bot negb]).
      all: first [ discriminate | intros [= <-]; reflexivity ].
  - destruct (cfg_snipe (tconfig (task w))) as [[|]|] eqn:Hs;
      [rewrite (Hsnipe eq_refl ms eq_refl) | |];
      repeat (first [ rewrite Hs
                    | match goal with
                      | |- context [if Num.gt ?a ?b then _ else _] => destruct (Num.gt a b)
                      end ];
              cbn [task bot negb]).
    all: discriminate.
Qed.

(** C7, as the code has it: every candidate either filter returns stands
    where a sighting of its feed stands, and that position, printed with
    four decimals, is the printed position of no entry of the ledger:
    sightings at a printed ledger position are left out, in push mode and
    in pull mode.  The comparison is between the strings, not between the
    rounded numbers. *)
Theorem C7_ledger_positions_excluded (h : host) (w : world) :
  (forall l, fst (get_pokemon_from_social h w) = Ok l ->
     forall p, In p l ->
       exists raw, In raw (push_feed w)
         /\ latitude p = m_latitude raw /\ longitude p = m_longitude raw
         /\ forall e, In e (caught (task w)) ->
              ~ (Num.fmt4 (m_latitude raw) = Num.fmt4 (latitude e)
                 /\ Num.fmt4 (m_longitude raw) = Num.fmt4 (longitude e)))
  /\ (forall l, fst (get_pokemon_from_url h w) = Ok l ->
     forall p, In p l ->
       exists raw, In raw (pull_feed h w)
         /\ latitude p = u_latitude raw /\ longitude p = u_longitude raw
         /\ forall e, In e (caught (task w)) ->
              ~ (Num.fmt4 (u_latitude raw) = Num.fmt4 (latitude e)
                 /\ Num.fmt4 (u_longitude raw) = Num.fmt4 (longitude e))).
Proof.
  split; intros l Hl p Hp.
  - destruct (social_result h w l Hl p Hp) as (raw & Hraw & _ & Hlat & Hlon & _ & Hnew & _).
    exists raw. repeat split; try assumption.
    intros e He [H1 H2]. rewrite is_inspected_false in Hnew.
    apply (Hnew e He). unfold Ledger.key. now rewrite Hlat, Hlon, H1, H2.
  - destruct (url_result h w l Hl p Hp) as (raw & Hraw & _ & Hlat & Hlon & _ & Hnew & _).
    exists raw. repeat split; try assumption.
    intros e He [H1 H2]. rewrite is_inspected_false in Hnew.
    apply (Hnew e He). unfold Ledger.key. now rewrite Hlat, Hlon, H1, H2.
Qed.

Lemma C7_ledger_positions_excluded_witness :
  length Sample.pushed_out = 1%nat
  /\ (forall p, In p Sample.pushed_out ->
        forall e, In e [Sample.entry 3] ->
          ~ (Num.fmt4 (latitude p) = Num.fmt4 (latitude e)
             /\ Num.fmt4 (longitude p) = Num.fmt4 (longitude e)))
  /\ length (Sample.pulled_out false 100) = 2%nat
  /\ (forall p, In p (Sample.pulled_out false 100) ->
        forall e, In e [Sample.entry 3] ->
          ~ (Num.fmt4 (latitude p) = Num.fmt4 (latitude e)
             /\ Num.fmt4 (longitude p) = Num.fmt4 (longitude e))).
Proof.
  split; [vm_compute; reflexivity |]. split; [| split; [vm_compute; reflexivity |]].
  - intros p Hp e He.
    destruct (proj1 (C7_ledger_positions_excluded Sample.sample_host Sample.push_world)
                Sample.pushed_out ltac:(vm_compute; reflexivity) p Hp)
      as (raw & _ & Hlat & Hlon & Hnew).
    rewrite Hlat, Hlon. exact (Hnew e He).
  - intros p Hp e He.
    destruct (proj2 (C7_ledger_positions_excluded (Sample.host_serving Sample.pull_feed1)
                       (Sample.pull_world false 100))
                (Sample.pulled_out false 100) ltac:(vm_compute; reflexivity) p Hp)
      as (raw & _ & Hlat & Hlon & Hnew).
    rewrite Hlat, Hlon. exact (Hnew e He).
Defined.

(** The claim's rounded key does not give C7: a sighting a metre south of
    the equator agrees with the ledger entry a metre north of it on both
    coordinates once rounded to four decimals, and both filters return it,
    because the latitudes print as [-0.0000] and [0.0000]. *)
Lemma C7_rounded_key_counterexample :
  In Field.north_entry (caught (task Field.equator_push_world))
  /\ In Field.north_entry (caught (task Field.equator_pull_world))
  /\ rounded4 (m_latitude (Sample.pushed 4 (-1) 2000)) = rounded4 (latitude Field.north_entry)
  /\ rounded4 (m_longitude (Sample.pushed 4 (-1) 2000)) = rounded4 (longitude Field.north_entry)
  /\ rounded4 (u_latitude (Sample.pulled 4 (-1) 2000)) = rounded4 (latitude Field.north_entry)
  /\ rounded4 (u_longitude (Sample.pulled 4 (-1) 2000)) = rounded4 (longitude Field.north_entry)
  /\ (exists p,
        fst (get_pokemon_from_social Sample.sample_host Field.equator_push_world) = Ok [p]
        /\ latitude p = m_latitude (Sample.pushed 4 (-1) 2000)
        /\ longitude p = m_longitude (Sample.pushed 4 (-1) 2000))
  /\ (exists p,
        fst (get_pokemon_from_url (Sample.host_serving [Sample.pulled 4 (-1) 2000])
               Field.equator_pull_world) = Ok [p]
        /\ latitude p = u_latitude (Sample.pulled 4 (-1) 2000)
        /\ longitude p = u_longitude (Sample.pulled 4 (-1) 2000)).
Proof.
  split; [left; reflexivity |]. split; [left; reflexivity |].
  do 4 (split; [vm_compute; reflexivity |]).
  split; eexists; (split; [vm_compute; reflexivity |]); split; reflexivity.
Qed.

(** C1, as the code has it: in push mode no returned candidate is farther
    from the trainer than the maximum sniping distance, whatever the
    sniping toggle; in pull mode this holds when sniping is enabled. *)
Theorem C1_sniping_range (h : host) (w : world) :
  (forall l, fst (get_pokemon_from_social h w) = Ok l ->
     forall p, In p l ->
       dist p = distance_to h w p
       /\ Num.gt (dist p)
            (default 10000%Q (cfg_max_sniping_distance (tconfig (task w)))) = false)
  /\ (forall l, fst (get_pokemon_from_url h w) = Ok l ->
     cfg_snipe (tconfig (task w)) = Some true ->
     forall p, In p l ->
       dist p = distance_to h w p
       /\ exists m, cfg_max_sniping_distance (tconfig (task w)) = Some m
                    /\ Num.gt (dist p) m = false).
Proof.
  split.
  - intros l Hl p Hp.
    destruct (social_result h w l Hl p Hp) as (raw & _ & _ & _ & _ & _ & _ & Hd & Hmax).
    now split.
  - intros l Hl Hsnipe p Hp.
    destruct (url_result h w l Hl p Hp) as (raw & _ & _ & _ & _ & _ & _ & Hd & Hmax & _).
    split; [assumption | exact (Hmax Hsnipe)].
Qed.

Lemma C1_sniping_range_witness :
  (forall p, In p Sample.pushed_out -> Num.gt (dist p) 10000 = false)
  /\ length (Sample.pulled_out true 550) = 1%nat
  /\ (forall p, In p (Sample.pulled_out true 550) -> Num.gt (dist p) 550 = false).
Proof.
  split; [| split; [vm_compute; reflexivity |]].
  - intros p Hp.
    exact (proj2 (proj1 (C1_sniping_range Sample.sample_host Sample.push_world)
                    Sample.pushed_out ltac:(vm_compute; reflexivity) p Hp)).
  - intros p Hp.
    destruct (proj2 (C1_sniping_range (Sample.host_serving Sample.pull_feed1)
                       (Sample.pull_world true 550))
                (Sample.pulled_out true 550) ltac:(vm_compute; reflexivity)
                ltac:(vm_compute; reflexivity) p Hp) as (_ & m & Hm & Hgt).
    vm_compute in Hm. injection Hm as <-. exact Hgt.
Defined.

(** In pull mode with sniping disabled and a walking range of 1000 m, a
    sighting 500 m away is returned although the maximum sniping distance
    is 100 m. *)
Lemma C1_pull_mode_counterexample :
  cfg_snipe (tconfig (task (Sample.pull_world false 100))) = Some false
  /\ cfg_max_sniping_distance (tconfig (task (Sample.pull_world false 100))) = Some 100%Q
  /\ exists p l,
       fst (get_pokemon_from_url (Sample.host_serving Sample.pull_feed1)
              (Sample.pull_world false 100)) = Ok l
       /\ In p l
       /\ dist p = distance_to (Sample.host_serving Sample.pull_feed1)
                     (Sample.pull_world false 100) p
       /\ Num.gt (dist p) 100 = true.
Proof.
  split; [reflexivity |]. split; [reflexivity |].
  exists (Sample.candidate 1 500 "Bulbasaur" false 5). eexists.
  split; [vm_compute; reflexivity |].
  split; [left; reflexivity |]. split; vm_compute; reflexivity.
Qed.

(** C6: in push mode every returned candidate is on the allow-list, VIP
    or not; in pull mode a VIP that is not on the allow-list is returned
    whether sniping is on or off, once the sighting is parsed, away from
    every ledger position and passes the distance tests of the mode: the
    sniping range with sniping on, the walking range and the reach
    without. *)
Theorem C6_allow_list_by_mode (h : host) (w : world) :
  (forall l, fst (get_pokemon_from_social h w) = Ok l ->
     forall p, In p l ->
       exists catch, cfg_catch (tconfig (task w)) = Some catch
                     /\ is_Some (catch !! name p))
  /\ (forall l raw p0 catch,
        fst (get_pokemon_from_url h w) = Ok l ->
        In raw (pull_feed h w) ->
        url_parse h w raw = Some p0 ->
        cfg_catch (tconfig (task w)) = Some catch ->
        catch !! name p0 = None ->
        is_vip p0 = true ->
        Ledger.is_inspected (caught (task w)) p0 = false ->
        (cfg_snipe (tconfig (task w)) = Some true ->
         forall m, cfg_max_sniping_distance (tconfig (task w)) = Some m ->
                   Num.gt (distance_to h w p0) m = false) ->
        (cfg_snipe (tconfig (task w)) <> Some true ->
         (forall m, cfg_max_walking_distance (tconfig (task w)) = Some m ->
                    Num.gt (distance_to h w p0) m = false)
         /\ Num.gt (distance_to h w p0) (reach h w (Num.py_int (clock w)) p0) = false) ->
        In (with_priority_dist 0 (distance_to h w p0) p0) l).
Proof.
  split.
  - intros l Hl p Hp.
    destruct (social_result h w l Hl p Hp) as (raw & _ & _ & _ & _ & (catch & Hc & Hn) & _).
    exists catch. split; [assumption | now rewrite Hn].
  - intros l raw p0 catch Hl Hraw Hparse Hcatch Hname Hvip Hnew Hsnipe Hwalk.
    revert Hl Hraw. unfold get_pokemon_from_url, pull_feed, fetch. unfold get, bind at 1.
    destruct (cfg_address (tconfig (task w))) as [address|]; simpl; [| intros _ []].
    unfold ret at 1. unfold bind at 1. unfold bind at 1. unfold modify, get, ret at 1. simpl.
    destruct (http_get h address (length (requests w))) as [| |[feed|]]; try (intros _ []).
    unfold time_now, item, bind, ret at 1. cbv beta iota. intros Hl Hraw.
    match type of Hl with
    | context [for_each ?b ?f ?acc ?w1] => destruct (for_each b f acc w1) as [r w'] eqn:E
    end.
    simpl in Hl. subst r.
    match type of E with
    | for_each _ _ _ ?w1 = _ =>
        apply (for_each_complete _ (fun w0 => ctx w0 = ctx w) raw _) with (3 := eq_refl : ctx w1 = ctx w) (5 := E)
    end.
    + intros x w0 r w1 Hw0 Hb. rewrite <- Hw0. exact (url_body_ctx _ _ _ _ _ _ Hb).
    + intros w0 r w1 Hw0 Hb.
      exact (url_body_vip h _ raw w p0 catch Hparse Hcatch Hname Hvip Hnew Hsnipe Hwalk
               w0 r w1 Hw0 Hb).
    + exact Hraw.
Qed.

Lemma C6_allow_list_by_mode_witness :
  (forall p, In p Sample.pushed_out ->
     exists catch, Some Sample.catch_list = Some catch /\ is_Some (catch !! name p))
  /\ In (with_priority_dist 0 600 Sample.venusaur) (Sample.pulled_out true 10000)
  /\ In (with_priority_dist 0 600 Sample.venusaur) (Sample.pulled_out false 100).
Proof.
  split; [| split].
  - exact (proj1 (C6_allow_list_by_mode Sample.sample_host Sample.push_world)
             Sample.pushed_out ltac:(vm_compute; reflexivity)).
  - apply (proj2 (C6_allow_list_by_mode (Sample.host_serving Sample.pull_feed1)
                    (Sample.pull_world true 10000))
             (Sample.pulled_out true 10000) (Sample.pulled 3 600 2000) Sample.venusaur
             Sample.catch_list).
    + vm_compute; reflexivity.
    + right; left; reflexivity.
    + vm_compute; reflexivity.
    + reflexivity.
    + vm_compute; reflexivity.
    + reflexivity.
    + vm_compute; reflexivity.
    + intros _ m [= <-]. vm_compute; reflexivity.
    + intros Hoff. exfalso. apply Hoff. reflexivity.
  - apply (proj2 (C6_allow_list_by_mode (Sample.host_serving Sample.pull_feed1)
                    (Sample.pull_world false 100))
             (Sample.pulled_out false 100) (Sample.pulled 3 600 2000) Sample.venusaur
             Sample.catch_list).
    + vm_compute; reflexivity.
    + right; left; reflexivity.
    + vm_compute; reflexivity.
    + reflexivity.
    + vm_compute; reflexivity.
    + reflexivity.
    + vm_compute; reflexivity.
    + intros Hon. discriminate Hon.
    + intros _. split; [intros m [= <-] |]; vm_compute; reflexivity.
Defined.

(** ** Target selection *)

Lemma only_events_refl w : only_events w w.
Proof. repeat split. exists []. now rewrite app_nil_r. Qed.

Lemma only_events_trans w1 w2 w3 :
  only_events w1 w2 -> only_events w2 w3 -> only_events w1 w3.
Proof.
  intros (Hb & Ht & Hr & Hf & Hc & evs & He) (Hb' & Ht' & Hr' & Hf' & Hc' & evs' & He').
  repeat split; try congruence.
  exists (evs ++ evs')%list. now rewrite He', He, <- List.app_assoc.
Qed.

Lemma only_events_ctx w w' : only_events w w' -> ctx w' = ctx w.
Proof. intros (Hb & Ht & _). unfold ctx. now rewrite Hb, Ht. Qed.

Lemma only_events_emit w e :
  only_events w (mkWorld (bot w) (task w) (events w ++ [e]) (requests w) (files w) (clock w)).
Proof. repeat split. now exists [e]. Qed.

Lemma filter_filter {A} (f g : A -> bool) (l : list A) :
  List.filter g (List.filter f l) = List.filter (fun x => f x && g x) l.
Proof.
  induction l as [|x l IH]; simpl; [reflexivity |].
  destruct (f x); simpl; [destruct (g x); now rewrite IH | exact IH].
Qed.


Section Sorting.

Variable key : pokemon_t -> Z.







End Sorting.







(** ** Sniping *)

(** The validation loop reads the surroundings and changes nothing. *)
Lemma verify_loop_world nearby p e w r w' :
  verify_loop nearby p e w = (r, w') -> w' = w.
Proof.
  induction nearby as [|n nearby IH]; simpl; intros H.
  - munfold. now inversion H.
  - destruct (nearby_pokemon_id n =? pokemon_id p); [| exact (IH H)].
    munfold. mcase; reflexivity.
Qed.

(** It raises only where it reads the [spawnpoint_id] key. *)
Lemma verify_loop_returns nearby p e w :
  is_Some (spawnpoint_id p) -> exists r, verify_loop nearby p e w = (Ok r, w).
Proof.
  intros [sp Hsp]. induction nearby as [|n nearby IH]; simpl.
  - eexists. reflexivity.
  - destruct (nearby_pokemon_id n =? pokemon_id p); [| exact IH].
    munfold. rewrite Hsp. destruct (negb (truthy (encounter_id p))); eexists; reflexivity.
Qed.

(** C5: with collaborators that leave the trainer where it stands (the
    keepalive and the catch worker run after the trainer is back), a call
    of [snipe] that returns reports success and leaves the latitude and
    the longitude of the trainer as they were before the teleport, whether
    the target was found or not; and the call returns for every target
    that carries the [spawnpoint_id] key. *)
Theorem C5_snipe_restores_position (h : host) (p : pokemon_t) (w : world) :
  (forall b, pos_lat (heartbeat h b) = pos_lat b /\ pos_lon (heartbeat h b) = pos_lon b) ->
  (forall q cfg r b, pos_lat (catch_work h q cfg r b) = pos_lat b
                     /\ pos_lon (catch_work h q cfg r b) = pos_lon b) ->
  (forall r w', snipe h p w = (Ok r, w') ->
     r = SUCCESS
     /\ pos_lat (bot w') = pos_lat (bot w)
     /\ pos_lon (bot w') = pos_lon (bot w))
  /\ (is_Some (spawnpoint_id p) -> exists w', snipe h p w = (Ok SUCCESS, w')).
Proof.
  intros Hbeat Hcatch.
  assert (Hback : forall r w', snipe h p w = (Ok r, w') ->
            r = SUCCESS
            /\ pos_lat (bot w') = pos_lat (bot w)
            /\ pos_lon (bot w') = pos_lon (bot w)).
  { intros r w' H. unfold snipe, teleport_to, teleport_back, encountered, inspect,
      pokemon_event_data, emit_failure in H.
    munfold.
    repeat match goal with
    | H : (_, _) = (_, _) |- _ => inversion H; subst; clear H
    | H : context [match verify_loop ?a ?b ?c ?d with _ => _ end] |- _ =>
        let E := fresh "E" in
        destruct (verify_loop a b c d) as [? ?] eqn:E;
        apply verify_loop_world in E; subst; cbn beta iota in H
    | H : context [match ?x with _ => _ end] |- _ => destruct x eqn:?; cbn beta iota in H
    | H : context [if ?x then _ else _] |- _ => destruct x eqn:?; cbn beta iota in H
    end.
    all: cbn [bot set_bot set_task task set_position with_position position pos_lat pos_lon fst snd].
    all: repeat split; try reflexivity.
    all: try (rewrite (proj1 (Hcatch _ _ _ _)), (proj1 (Hbeat _)); reflexivity).
    all: try (rewrite (proj2 (Hcatch _ _ _ _)), (proj2 (Hbeat _)); reflexivity). }
  split; [exact Hback |].
  intros Hsp. destruct (snipe h p w) as [[r|e] w'] eqn:E.
  - exists w'. now destruct (Hback r w' eq_refl) as [-> _].
  - exfalso. clear Hback. unfold snipe, teleport_to, teleport_back, encountered, inspect,
      pokemon_event_data, emit_failure in E.
    munfold.
    repeat match goal with
    | H : (_, _) = (_, _) |- _ => inversion H; subst; clear H
    | H : context [match ?x with _ => _ end] |- _ => destruct x eqn:?; cbn beta iota in H
    | H : context [if ?x then _ else _] |- _ => destruct x eqn:?; cbn beta iota in H
    end.
    match goal with
    | H : verify_loop ?a ?b ?c ?d = (Raise _, _) |- _ =>
        destruct (verify_loop_returns a b c d Hsp) as [? Hr]; rewrite Hr in H; discriminate
    end.
Qed.

Lemma C5_snipe_restores_position_witness :
  exists w',
    snipe Sample.sample_host (Sample.vip_target 600) (Sample.pull_world true 10000)
      = (Ok SUCCESS, w')
    /\ pos_lat (bot w') = 0%Q /\ pos_lon (bot w') = 0%Q.
Proof.
  destruct (C5_snipe_restores_position Sample.sample_host (Sample.vip_target 600)
              (Sample.pull_world true 10000)
              (fun b => conj eq_refl eq_refl) (fun q cfg r b => conj eq_refl eq_refl))
    as [Hback Hreturns].
  destruct (Hreturns (ex_intro _ (IdStr "sp") eq_refl)) as [w' Hw'].
  exists w'. split; [exact Hw' |].
  destruct (Hback SUCCESS w' Hw') as (_ & Hlat & Hlon). split; assumption.
Defined.

(** ** The tick *)

(** C3, as the code has it: on the branch for a VIP target or no waypoint
    on the way, the encounter is decided on the ticks where the walker's
    [step] answers false.  Then a target whose distance (as the filter
    computed it) is below the reachable threshold is encountered: the
    encounter event follows the move event, the capture lock is released,
    the target goes into the ledger and the tick reports success; a
    farther target leaves the tick running.  On a tick where [step]
    answers true the function ends without a result, the lock stays where
    the walker left it and the ledger is untouched. *)
Theorem C3_walk_outcome (h : host) (p : pokemon_t) (w : world)
    (sw : step_walker) (arrived : bool) (b2 : bot_state) :
  (balls (bot w) <? min_ball (task w)) = false ->
  (is_vip p = true \/ fst (get_nearest_fort_on_the_way h p w) = Ok None) ->
  walker_factory h (walker (task w)) (latitude p) (longitude p)
    (with_capture_locked (LockedTo (pokemon_id p)) (bot w)) = Some sw ->
  walker_step h sw (with_capture_locked (LockedTo (pokemon_id p)) (bot w)) = (arrived, b2) ->
  exists w',
    walk h p w =
      (Ok (if arrived then None
           else if Num.lt (dist p) (MAX_DISTANCE_POKEMON_IS_REACHABLE h) then Some SUCCESS
           else Some RUNNING), w')
    /\ (arrived = false ->
        Num.lt (dist p) (MAX_DISTANCE_POKEMON_IS_REACHABLE h) = true ->
        map ev_name (events w') =
          (map ev_name (events w)
             ++ ["move_to_map_pokemon_move_towards"; "move_to_map_pokemon_encounter"])%list
        /\ capture_locked (bot w') = Unlocked
        /\ caught (task w') = Ledger.inspect (caught (task w)) p)
    /\ (arrived = true \/ Num.lt (dist p) (MAX_DISTANCE_POKEMON_IS_REACHABLE h) = false ->
        map ev_name (events w') =
          (map ev_name (events w) ++ ["move_to_map_pokemon_move_towards"])%list
        /\ bot w' = b2
        /\ task w' = task w).
Proof.
  intros Hballs Hbranch Hfactory Hstep.
  unfold walk, get_nearest_fort_on_the_way, move_to, encountered, inspect, pokemon_event_data.
  munfold. rewrite Hballs.
  assert (Hnone : (if is_vip p then None
                   else head (prune_forts h w p
                                (List.filter
                                   (fun x => bool_decide (fort_id x ∉ fort_timeouts (bot w)))
                                   (get_forts h (bot w))))) = None).
  { destruct Hbranch as [-> | Hnone]; [reflexivity |].
    unfold get_nearest_fort_on_the_way in Hnone. munfold. simpl in Hnone.
    injection Hnone as ->. now destruct (is_vip p). }
  rewrite Hnone. cbn [bot task set_bot]. rewrite Hfactory. cbn [bot task set_bot].
  rewrite Hstep. cbn [bot task set_bot].
  destruct arrived; cbn [negb].
  - eexists. split; [reflexivity |]. split; [discriminate |].
    intros _. cbn [events bot task set_bot set_task]. rewrite List.map_app. auto.
  - destruct (Num.lt (dist p) (MAX_DISTANCE_POKEMON_IS_REACHABLE h)).
    + eexists. split; [reflexivity |]. split; [| intros [|]; discriminate].
      intros _ _. cbn [events bot task set_task set_bot with_capture_locked capture_locked
                       with_caught caught].
      rewrite !List.map_app, <- List.app_assoc. auto.
    + eexists. split; [reflexivity |]. split; [discriminate |].
      intros _. cbn [events bot task set_bot set_task]. rewrite List.map_app. auto.
Qed.

Lemma C3_walk_outcome_witness :
  (exists w',
     walk Sample.sample_host (Sample.vip_target 30) Sample.walk_world = (Ok (Some SUCCESS), w')
     /\ capture_locked (bot w') = Unlocked
     /\ caught (task w') = [Sample.vip_target 30])
  /\ fst (work (Sample.host_serving [Sample.pulled 3 30 2000]) Sample.walk_world)
     = Ok (Some SUCCESS)
  /\ fst (work (Sample.host_serving [Sample.pulled 3 500 2000]) Sample.walk_world)
     = Ok (Some RUNNING).
Proof.
  split; [| split; vm_compute; reflexivity].
  destruct (C3_walk_outcome Sample.sample_host (Sample.vip_target 30) Sample.walk_world
              (mkWalker "StepWalker" (30 # 100000) 0) false
              (with_capture_locked (LockedTo 3) (bot Sample.walk_world))
              ltac:(vm_compute; reflexivity) (or_introl eq_refl)
              eq_refl ltac:(vm_compute; reflexivity))
    as (w' & Hrun & Hmeet & _).
  exists w'. split; [exact Hrun |].
  destruct (Hmeet eq_refl ltac:(vm_compute; reflexivity)) as (_ & Hlock & Hcaught).
  split; [exact Hlock | exact Hcaught].
Defined.

(** The walker reports arrival ([step] answers true) at a VIP target that
    is 0 m away, well below the reachable threshold of 48 m; [work] ends
    without a result, emits no encounter event, keeps the capture lock and
    leaves the ledger empty. *)
Lemma C3_arrival_counterexample :
  walker_step (Sample.host_serving [Sample.pulled 3 0 2000])
    (mkWalker "StepWalker" 0 0)
    (with_capture_locked (LockedTo 3) (bot Sample.walk_world))
    = (true, with_capture_locked (LockedTo 3) (bot Sample.walk_world))
  /\ Num.lt (dist (Sample.vip_target 0))
       (MAX_DISTANCE_POKEMON_IS_REACHABLE (Sample.host_serving [Sample.pulled 3 0 2000])) = true
  /\ fst (work (Sample.host_serving [Sample.pulled 3 0 2000]) Sample.walk_world) = Ok None
  /\ map ev_name
       (events (snd (work (Sample.host_serving [Sample.pulled 3 0 2000]) Sample.walk_world)))
     = ["move_to_map_pokemon_move_towards"]
  /\ capture_locked
       (bot (snd (work (Sample.host_serving [Sample.pulled 3 0 2000]) Sample.walk_world)))
     = LockedTo 3
  /\ caught (task (snd (work (Sample.host_serving [Sample.pulled 3 0 2000]) Sample.walk_world)))
     = [].
Proof. repeat split; vm_compute; reflexivity. Qed.

(** C9: with fewer balls than the minimum, [work] reports success at once:
    the bot (and so the push buffer), the task, the list of fetched
    addresses, the files and the clock are as before; only the debug
    message may have been emitted. *)
Theorem C9_no_balls_no_feed (h : host) (w : world) :
  inventory (bot w) POKEBALL_ID + inventory (bot w) GREATBALL_ID
    + inventory (bot w) ULTRABALL_ID < min_ball (task w) ->
  exists w',
    work h w = (Ok (Some SUCCESS), w')
    /\ bot w' = bot w
    /\ mqtt_pokemon_list (bot w') = mqtt_pokemon_list (bot w)
    /\ task w' = task w
    /\ requests w' = requests w
    /\ files w' = files w
    /\ clock w' = clock w.
Proof.
  intros Hfew. apply Z.ltb_lt in Hfew.
  unfold work. munfold. rewrite Hfew.
  destruct (debug w); eexists; (split; [reflexivity |]); cbn; auto 10.
Qed.

Lemma C9_no_balls_no_feed_witness :
  exists w',
    work Sample.sample_host Sample.empty_handed = (Ok (Some SUCCESS), w')
    /\ mqtt_pokemon_list (bot w') = Some [Sample.pushed 4 700 2000]
    /\ requests w' = [].
Proof.
  destruct (C9_no_balls_no_feed Sample.sample_host Sample.empty_handed
              ltac:(vm_compute; reflexivity))
    as (w' & Hrun & _ & Hbuf & _ & Hreq & _).
  exists w'. split; [exact Hrun |]. split; [exact Hbuf | exact Hreq].
Defined.

(** ** Persistence *)

Lemma length_append (a b : string) :
  String.length (a +:+ b) = (String.length a + String.length b)%nat.
Proof. induction a as [|c a IH]; simpl; [reflexivity | now rewrite IH]. Qed.

Lemma caught_file_name_relative user : String.prefix "/" (caught_file_name user) = false.
Proof. reflexivity. Qed.

Lemma path_join_length_le a b :
  String.prefix "/" b = false ->
  (String.length a + String.length b <= String.length (path_join a b)
   <= String.length a + String.length b + 1)%nat.
Proof.
  intros Hb. unfold path_join. rewrite Hb.
  destruct (String.eqb a EmptyString || ends_with_slash a); rewrite !length_append; simpl; lia.
Qed.

(** The file [dump_caught_pokemon] writes is never the file [initialize]
    reads: the first path has the [data] directory in it. *)
Lemma dump_path_is_not_load_path base user :
  path_join (path_join base "data") (caught_file_name user)
  <> path_join base (caught_file_name user).
Proof.
  intros Heq. apply (f_equal String.length) in Heq.
  pose proof (path_join_length_le (path_join base "data") (caught_file_name user)
                (caught_file_name_relative user)) as H1.
  pose proof (path_join_length_le base "data" eq_refl) as H2.
  pose proof (path_join_length_le base (caught_file_name user)
                (caught_file_name_relative user)) as H3.
  change (String.length "data") with 4%nat in H2. lia.
Qed.

(** What [initialize] finds is what was at its own path before the dump. *)
Lemma dump_keeps_load_path h w :
  files (snd (dump_caught_pokemon h w))
    !! path_join (base_dir h) (caught_file_name (username (bconfig (bot w))))
  = files w !! path_join (base_dir h) (caught_file_name (username (bconfig (bot w)))).
Proof.
  unfold dump_caught_pokemon. munfold.
  destruct (writable h _); cbn [snd files]; [| reflexivity].
  apply lookup_insert_ne, dump_path_is_not_load_path.
Qed.

(** The dump touches the files only, return or raise. *)
Lemma dump_frame h w :
  bot (snd (dump_caught_pokemon h w)) = bot w
  /\ task (snd (dump_caught_pokemon h w)) = task w
  /\ events (snd (dump_caught_pokemon h w)) = events w
  /\ requests (snd (dump_caught_pokemon h w)) = requests w
  /\ clock (snd (dump_caught_pokemon h w)) = clock w.
Proof.
  unfold dump_caught_pokemon. munfold. destruct (writable h _); repeat split.
Qed.

Lemma initialize_without_file h w :
  files w !! path_join (base_dir h) (caught_file_name (username (bconfig (bot w)))) = None ->
  fst (initialize h w) = Ok tt /\ caught (task (snd (initialize h w))) = [].
Proof.
  intros Hnone. unfold initialize. munfold. cbn [files bot task set_task].
  rewrite Hnone. split; reflexivity.
Qed.

(** C2, where the code goes wrong: a ledger of one entry is dumped in a
    directory without files; where the dump can be written it is on disk
    under [data/], and [initialize], run as at process start, comes back
    with an empty ledger — for every host, that is for every JSON codec,
    every base directory and whether or not the dump could be written. *)
Theorem C2_reload_misses_dump (h : host) :
  (writable h (path_join (path_join (base_dir h) "data") (caught_file_name "ash")) = true ->
   fst (dump_caught_pokemon h (Sample.pull_world false 100)) = Ok tt
   /\ files (snd (dump_caught_pokemon h (Sample.pull_world false 100)))
        !! path_join (path_join (base_dir h) "data") (caught_file_name "ash")
      = Some (json_dump h [Sample.entry 3]))
  /\ fst (initialize h (snd (dump_caught_pokemon h (Sample.pull_world false 100)))) = Ok tt
  /\ caught (task (snd (initialize h (snd (dump_caught_pokemon h (Sample.pull_world false 100))))))
     = []
  /\ caught (task (Sample.pull_world false 100)) = [Sample.entry 3].
Proof.
  split; [| split; [| split; [| reflexivity]]].
  - intros Hw. unfold dump_caught_pokemon. munfold.
    change (username (bconfig (bot (Sample.pull_world false 100)))) with "ash".
    rewrite Hw. cbn [fst snd files]. split; [reflexivity | apply lookup_insert_eq].
  - apply initialize_without_file.
    rewrite (proj1 (dump_frame h (Sample.pull_world false 100))).
    etransitivity; [apply (dump_keeps_load_path h (Sample.pull_world false 100)) |].
    apply lookup_empty.
  - apply initialize_without_file.
    rewrite (proj1 (dump_frame h (Sample.pull_world false 100))).
    etransitivity; [apply (dump_keeps_load_path h (Sample.pull_world false 100)) |].
    apply lookup_empty.
Qed.

(** * Further properties *)

(** ** The ledger, continued *)

Lemma is_inspected_key caught p q :
  Ledger.key q = Ledger.key p ->
  Ledger.is_inspected caught q = Ledger.is_inspected caught p.
Proof.
  intros Hk. destruct (Ledger.is_inspected caught p) eqn:E.
  - apply is_inspected_true in E as (e & He & Hpe). apply is_inspected_true.
    exists e. split; [assumption | congruence].
  - apply is_inspected_false. rewrite is_inspected_false in E.
    intros e He Hqe. apply (E e He). congruence.
Qed.

(** X1: once a target went through [inspect], [is_inspected] answers true
    for it and for everything at the same four-decimal position, whatever
    the ledger was. *)
Theorem X1_inspect_then_inspected (caught : list pokemon_t) (p q : pokemon_t) :
  Ledger.key q = Ledger.key p ->
  Ledger.is_inspected (Ledger.inspect caught p) q = true.
Proof.
  intros Hk. rewrite (is_inspected_key _ p q Hk). apply is_inspected_after.
Qed.

Lemma X1_inspect_then_inspected_witness :
  Ledger.is_inspected (Ledger.inspect Sample.full_ledger (Sample.entry 200))
    (Sample.candidate 4 20002 "Charmander" false 20) = true.
Proof.
  apply (X1_inspect_then_inspected Sample.full_ledger (Sample.entry 200)
           (Sample.candidate 4 20002 "Charmander" false 20)).
  vm_compute. reflexivity.
Defined.

(** X2: [inspect] forgets nothing but the front entry of a full ledger: a
    position matched by an entry behind the front one stays matched, and
    below 200 entries every matched position stays matched. *)
Theorem X2_inspect_keeps_the_rest (caught : list pokemon_t) (p q : pokemon_t) :
  (Ledger.is_inspected (tl caught) q = true \/
   ((length caught < 200)%nat /\ Ledger.is_inspected caught q = true)) ->
  Ledger.is_inspected (Ledger.inspect caught p) q = true.
Proof.
  intros H. destruct (Ledger.is_inspected caught p) eqn:Ep.
  - rewrite inspect_known by assumption.
    destruct H as [H | [_ H]]; [| assumption].
    destruct caught as [|c caught]; [discriminate |].
    simpl in *. rewrite H. now destruct (Ledger.same_spot q c).
  - rewrite inspect_new by assumption. rewrite is_inspected_app.
    apply orb_true_iff. left.
    destruct (Nat.leb_spec Ledger.capacity (length caught)) as [Hfull | Hroom].
    + destruct H as [H | [Hlt _]]; [assumption |].
      unfold Ledger.capacity in Hfull. lia.
    + destruct H as [H | [_ H]]; [| assumption].
      destruct caught as [|c caught]; [discriminate |].
      simpl in *. rewrite H. now destruct (Ledger.same_spot q c).
Qed.

Lemma X2_inspect_keeps_the_rest_witness :
  Ledger.is_inspected (Ledger.inspect Sample.full_ledger (Sample.entry 200)) (Sample.entry 1)
  = true.
Proof.
  apply (X2_inspect_keeps_the_rest Sample.full_ledger (Sample.entry 200) (Sample.entry 1)).
  left. vm_compute. reflexivity.
Defined.

(** X3: [inspect] never shortens the ledger and adds at most one entry;
    a ledger that already holds 200 entries or more keeps its length, so
    one that was loaded longer than 200 never comes back under the
    bound. *)
Theorem X3_inspect_length (caught : list pokemon_t) (p : pokemon_t) :
  (length caught <= length (Ledger.inspect caught p) <= S (length caught))%nat
  /\ ((200 <= length caught)%nat -> length (Ledger.inspect caught p) = length caught)
  /\ ((length caught < 200)%nat -> Ledger.is_inspected caught p = false ->
      length (Ledger.inspect caught p) = S (length caught)).
Proof.
  assert (Hcap : Ledger.capacity = 200%nat) by reflexivity.
  destruct (Ledger.is_inspected caught p) eqn:Ep.
  - rewrite inspect_known by assumption. repeat split; try lia; discriminate.
  - rewrite inspect_new by assumption. rewrite length_app. cbn [length].
    destruct (Nat.leb_spec Ledger.capacity (length caught)) as [Hfull | Hroom].
    + destruct caught as [|c caught]; cbn [tl length] in *; repeat split; lia.
    + repeat split; lia.
Qed.

Lemma X3_inspect_length_witness :
  length (Ledger.inspect Sample.full_ledger (Sample.entry 200)) = length Sample.full_ledger
  /\ length (Ledger.inspect [Sample.entry 1] (Sample.entry 2)) = 2%nat.
Proof.
  split.
  - apply (proj1 (proj2 (X3_inspect_length Sample.full_ledger (Sample.entry 200)))).
    vm_compute. lia.
  - apply (proj2 (proj2 (X3_inspect_length [Sample.entry 1] (Sample.entry 2)))).
    + simpl. lia.
    + vm_compute. reflexivity.
Defined.

(** ** The filters, continued *)

Ltac frame_events :=
  first [ apply only_events_refl | apply only_events_emit ].

Lemma social_body_only_events h now raw w r w' :
  social_body h now raw w = (r, w') -> only_events w w'.
Proof. unfold social_body. munfold. intros H. mcase; frame_events. Qed.

Lemma url_body_only_events h now raw w r w' :
  url_body h now raw w = (r, w') -> only_events w w'.
Proof. unfold url_body. munfold. intros H. mcase; frame_events. Qed.

Section LoopMore.

Context {A : Type} (body : A -> M (option pokemon_t)).

(** A loop whose rounds only emit events only emits events, return or
    raise. *)
Lemma for_each_only_events :
  (forall raw w r w', body raw w = (r, w') -> only_events w w') ->
  forall feed acc w r w', for_each body feed acc w = (r, w') -> only_events w w'.
Proof.
  intros Hbody. induction feed as [|raw rest IH]; intros acc w r w' H.
  - simpl in H. munfold. inversion H; subst. apply only_events_refl.
  - simpl in H. unfold bind in H. destruct (body raw w) as [[o|e] w1] eqn:E.
    + exact (only_events_trans _ _ _ (Hbody _ _ _ _ E) (IH _ _ _ _ H)).
    + inversion H; subst. exact (Hbody _ _ _ _ E).
Qed.

(** The result lists the candidates in the order of the feed. *)
Lemma for_each_picked (I : world -> Prop) (R : A -> pokemon_t -> Prop) :
  (forall raw w r w', I w -> body raw w = (Ok r, w') -> I w') ->
  (forall raw w p w', I w -> body raw w = (Ok (Some p), w') -> R raw p) ->
  forall feed acc w res w',
    I w -> for_each body feed acc w = (Ok res, w') ->
    exists l, res = (acc ++ l)%list /\ picked R feed l.
Proof.
  intros HI HR. induction feed as [|raw rest IH]; intros acc w res w' Hw H.
  - simpl in H. munfold. inversion H; subst. exists []. split; [now rewrite app_nil_r | constructor].
  - simpl in H. unfold bind in H. destruct (body raw w) as [[r|e] w1] eqn:E; [| discriminate].
    destruct (IH _ _ _ _ (HI _ _ _ _ Hw E) H) as (l & -> & Hl).
    destruct r as [p|].
    + exists (p :: l). split; [now rewrite <- List.app_assoc |].
      constructor; [exact (HR _ _ _ _ Hw E) | assumption].
    + exists l. split; [reflexivity | now constructor].
Qed.

(** One round that can only raise makes the loop raise. *)
Lemma for_each_raises (I : world -> Prop) (bad : A) :
  (forall raw w r w', I w -> body raw w = (Ok r, w') -> I w') ->
  (forall w r w', I w -> body bad w = (Ok r, w') -> False) ->
  forall feed acc w res w',
    I w -> In bad feed -> for_each body feed acc w = (Ok res, w') -> False.
Proof.
  intros HI Hbad. induction feed as [|x rest IH]; intros acc w res w' Hw Hin H; [easy |].
  simpl in H. unfold bind in H. destruct (body x w) as [[r|e] w1] eqn:E; [| discriminate].
  destruct Hin as [-> | Hin].
  - exact (Hbad _ _ _ Hw E).
  - exact (IH _ _ _ _ (HI _ _ _ _ Hw E) Hin H).
Qed.

End LoopMore.

Lemma picked_In {A} (R : A -> pokemon_t -> Prop) feed l :
  picked R feed l -> forall p, In p l -> exists raw, In raw feed /\ R raw p.
Proof.
  induction 1 as [| raw feed l _ IH | raw feed q l Hq _ IH]; intros p Hp.
  - destruct Hp.
  - destruct (IH p Hp) as (x & Hx & Hr). exists x. split; [now right | assumption].
  - destruct Hp as [<- | Hp].
    + exists raw. split; [now left | assumption].
    + destruct (IH p Hp) as (x & Hx & Hr). exists x. split; [now right | assumption].
Qed.

Lemma picked_length {A} (R : A -> pokemon_t -> Prop) feed l :
  picked R feed l -> (length l <= length feed)%nat.
Proof. induction 1; simpl; lia. Qed.

Lemma picked_weaken {A} (R R' : A -> pokemon_t -> Prop) feed l :
  (forall raw p, R raw p -> R' raw p) -> picked R feed l -> picked R' feed l.
Proof.
  intros HR. induction 1 as [| raw feed l _ IH | raw feed q l Hq _ IH].
  - constructor.
  - now apply picked_skip.
  - apply picked_take; auto.
Qed.

Lemma social_body_enriched h now raw w p w' :
  social_body h now raw w = (Ok (Some p), w') ->
  enriched h w now p /\ disappear_time p = m_expiration_timestamp_ms raw / 1000.
Proof.
  unfold social_body. munfold. intros H. mcase.
  all: unfold enriched, reach; simpl.
  all: repeat split; try reflexivity; try assumption.
  all: try (eexists; split; [eassumption |];
            match goal with H : _ !! _ = Some _ |- _ => now rewrite H end).
  all: try match goal with
       | Hb : Num.gt _ _ && negb (default false ?s) = false, Hs : ?s <> Some true |- _ =>
           destruct s as [[]|]; simpl in Hb;
           [congruence | rewrite andb_true_r in Hb; exact Hb ..]
       end.
  all: try (exfalso;
            match goal with
            | Hs : _ <> Some true |- _ => apply Hs
            end;
            repeat match goal with b : bool |- _ => destruct b end;
            simpl in *; congruence).
Qed.

Lemma url_parse_facts h w raw p :
  url_parse h w raw = Some p ->
  py_nth (pokemon_data (task w)) (pokemon_id p - 1) = Some (name p)
  /\ is_vip p = bool_decide (name p ∈ vips (bconfig (bot w)))
  /\ disappear_time p = u_disappear_time raw / 1000.
Proof.
  unfold url_parse. intros H.
  destruct (u_encounter_id raw) as [enc_raw|]; simpl in H; [| discriminate].
  match type of H with context [mbind _ ?o] => destruct o as [enc|] end; simpl in H; [| discriminate].
  destruct (u_spawnpoint_id raw) as [sp_raw|]; simpl in H; [| discriminate].
  destruct (py_nth _ _) as [nm|] eqn:Hnm; simpl in H; [| discriminate].
  injection H as <-. simpl. auto.
Qed.

Lemma url_body_enriched h now raw w p w' :
  url_body h now raw w = (Ok (Some p), w') ->
  enriched h w now p /\ disappear_time p = u_disappear_time raw / 1000.
Proof.
  unfold url_body. intros H.
  unfold get, bind at 1 in H.
  destruct (url_parse h w raw) as [p0|] eqn:Hparse.
  2:{ munfold. discriminate. }
  apply url_parse_facts in Hparse as (Hnm & Hvip & Htime).
  munfold. mcase.
  all: unfold enriched, reach; simpl.
  all: repeat split; try assumption; try reflexivity.
  all: try (eexists; split; [eassumption | reflexivity]).
  all: repeat match goal with b : bool |- _ => destruct b end.
  all: repeat match goal with
       | Hm : cfg_max_walking_distance _ = Some _ |- _ => rewrite Hm; clear Hm
       end.
  all: simpl in *; try discriminate; try congruence.
Qed.

Lemma enriched_ctx h w w' now p : ctx w' = ctx w -> enriched h w' now p -> enriched h w now p.
Proof.
  intros H. apply ctx_inv in H as (_ & Hc & Ht).
  unfold enriched, reach, mean_walk_speed. now rewrite Hc, Ht.
Qed.

(** Everything the push filter guarantees, in feed order. *)
Lemma social_trace h w l :
  fst (get_pokemon_from_social h w) = Ok l ->
  picked (fun raw p => social_accepts h w raw p
                       /\ enriched h w (Num.py_int (clock w)) p
                       /\ disappear_time p = m_expiration_timestamp_ms raw / 1000)
    (push_feed w) l.
Proof.
  unfold get_pokemon_from_social, push_feed. unfold get, bind at 1.
  destruct (mqtt_pokemon_list (bot w)) as [[|raw0 feed]|] eqn:Hbuf; cbv beta iota; cbn [default].
  1, 3: (unfold ret; simpl; intros [= <-]; constructor).
  unfold time_now, modify, bind. intros H.
  match type of H with
  | context [for_each ?b ?f ?acc ?w1] => destruct (for_each b f acc w1) as [r w'] eqn:E
  end.
  simpl in H. subst r.
  match type of E with
  | for_each _ _ _ ?w1 = _ =>
      destruct (for_each_picked (social_body h (Num.py_int (clock w)))
                  (fun w0 => ctx w0 = ctx w)
                  (fun raw p => social_accepts h w raw p
                                /\ enriched h w (Num.py_int (clock w)) p
                                /\ disappear_time p = m_expiration_timestamp_ms raw / 1000))
        with (3 := eq_refl : ctx w1 = ctx w) (4 := E) as (l' & -> & Hl)
  end.
  - intros raw w0 r w1 Hw0 Hb. rewrite <- Hw0. exact (social_body_ctx _ _ _ _ _ _ Hb).
  - intros raw w0 q w1 Hw0 Hb. split; [| split].
    + apply (social_accepts_ctx _ _ _ _ _ Hw0). exact (social_body_sound _ _ _ _ _ _ Hb).
    + apply (enriched_ctx _ _ _ _ _ Hw0). exact (proj1 (social_body_enriched _ _ _ _ _ _ Hb)).
    + exact (proj2 (social_body_enriched _ _ _ _ _ _ Hb)).
  - exact Hl.
Qed.

(** Everything the pull filter guarantees, in feed order. *)
Lemma url_trace h w l :
  fst (get_pokemon_from_url h w) = Ok l ->
  picked (fun raw p => url_accepts h w raw p
                       /\ enriched h w (Num.py_int (clock w)) p
                       /\ disappear_time p = u_disappear_time raw / 1000)
    (pull_feed h w) l.
Proof.
  unfold get_pokemon_from_url, pull_feed, fetch. unfold get, bind at 1.
  destruct (cfg_address (tconfig (task w))) as [address|]; simpl.
  2:{ unfold raise. simpl. discriminate. }
  unfold ret at 1. unfold bind at 1. unfold bind at 1. unfold modify, get, ret at 1. simpl.
  destruct (http_get h address (length (requests w))) as [| |[feed|]].
  1, 2: (unfold emit_failure, emit_event, bind, modify, ret; simpl; intros [= <-]; constructor).
  2:{ unfold time_now, bind, item, raise. simpl. discriminate. }
  unfold time_now, item, bind, ret at 1. cbv beta iota. intros H.
  match type of H with
  | context [for_each ?b ?f ?acc ?w1] => destruct (for_each b f acc w1) as [r w'] eqn:E
  end.
  simpl in H. subst r.
  match type of E with
  | for_each _ _ _ ?w1 = _ =>
      destruct (for_each_picked (url_body h (Num.py_int (clock w)))
                  (fun w0 => ctx w0 = ctx w)
                  (fun raw p => url_accepts h w raw p
                                /\ enriched h w (Num.py_int (clock w)) p
                                /\ disappear_time p = u_disappear_time raw / 1000))
        with (3 := eq_refl : ctx w1 = ctx w) (4 := E) as (l' & -> & Hl)
  end.
  - intros raw w0 r w1 Hw0 Hb. rewrite <- Hw0. exact (url_body_ctx _ _ _ _ _ _ Hb).
  - intros raw w0 q w1 Hw0 Hb. split; [| split].
    + apply (url_accepts_ctx _ _ _ _ _ Hw0). exact (url_body_sound _ _ _ _ _ _ Hb).
    + apply (enriched_ctx _ _ _ _ _ Hw0). exact (proj1 (url_body_enriched _ _ _ _ _ _ Hb)).
    + exact (proj2 (url_body_enriched _ _ _ _ _ _ Hb)).
  - exact Hl.
Qed.

(** X4: with sniping not switched on, every candidate either filter
    returns is within the maximum walking distance and within the
    distance the trainer covers at the mean walking speed before the
    candidate disappears. *)
Theorem X4_walking_range_when_not_sniping (h : host) (w : world) (l : list pokemon_t) :
  fst (get_pokemon_from_social h w) = Ok l \/ fst (get_pokemon_from_url h w) = Ok l ->
  cfg_snipe (tconfig (task w)) <> Some true ->
  forall p, In p l ->
    dist p = distance_to h w p
    /\ Num.gt (dist p) (default 1000%Q (cfg_max_walking_distance (tconfig (task w)))) = false
    /\ Num.gt (dist p) (reach h w (Num.py_int (clock w)) p) = false.
Proof.
  intros [Hl | Hl] Hs p Hp.
  - destruct (picked_In _ _ _ (social_trace h w l Hl) p Hp)
      as (raw & _ & Hacc & (_ & _ & _ & Hwalk) & _).
    destruct Hacc as (_ & _ & _ & _ & _ & Hd & _).
    split; [assumption | exact (Hwalk Hs)].
  - destruct (picked_In _ _ _ (url_trace h w l Hl) p Hp)
      as (raw & _ & Hacc & (_ & _ & _ & Hwalk) & _).
    destruct Hacc as (_ & _ & _ & _ & _ & Hd & _).
    split; [assumption | exact (Hwalk Hs)].
Qed.

Lemma X4_walking_range_when_not_sniping_witness :
  length (Sample.pulled_out false 100) = 2%nat
  /\ List.Forall (fun p => Num.gt (dist p) 1000 = false) (Sample.pulled_out false 100).
Proof.
  split; [vm_compute; reflexivity |]. apply List.Forall_forall. intros p Hp.
  refine (proj1 (proj2 (X4_walking_range_when_not_sniping
                          (Sample.host_serving Sample.pull_feed1) (Sample.pull_world false 100)
                          (Sample.pulled_out false 100) (or_intror _) _ p Hp))).
  - vm_compute. reflexivity.
  - intros H. discriminate H.
Defined.

(** X5: both filters return their candidates in the order of the feed,
    at most one per sighting, each with the species id and the
    coordinates of its sighting and the sighting's expiry in seconds. *)
Theorem X5_filters_keep_feed_order (h : host) (w : world) :
  (forall l, fst (get_pokemon_from_social h w) = Ok l ->
     picked (fun raw p => pokemon_id p = m_pokemon_id raw
                          /\ latitude p = m_latitude raw
                          /\ longitude p = m_longitude raw
                          /\ disappear_time p = m_expiration_timestamp_ms raw / 1000)
       (push_feed w) l
     /\ (length l <= length (push_feed w))%nat)
  /\ (forall l, fst (get_pokemon_from_url h w) = Ok l ->
     picked (fun raw p => pokemon_id p = u_pokemon_id raw
                          /\ latitude p = u_latitude raw
                          /\ longitude p = u_longitude raw
                          /\ disappear_time p = u_disappear_time raw / 1000)
       (pull_feed h w) l
     /\ (length l <= length (pull_feed h w))%nat).
Proof.
  split; intros l Hl.
  - pose proof (social_trace h w l Hl) as Ht. split; [| exact (picked_length _ _ _ Ht)].
    revert Ht. apply picked_weaken. intros raw p ((Hid & Hlat & Hlon & _) & _ & Ht). auto.
  - pose proof (url_trace h w l Hl) as Ht. split; [| exact (picked_length _ _ _ Ht)].
    revert Ht. apply picked_weaken. intros raw p ((Hid & Hlat & Hlon & _) & _ & Ht). auto.
Qed.

Lemma X5_filters_keep_feed_order_witness :
  map pokemon_id (Sample.pulled_out false 100) = [1; 3]
  /\ (length (Sample.pulled_out false 100) <= 3)%nat.
Proof.
  split; [vm_compute; reflexivity |].
  exact (proj2 (proj2 (X5_filters_keep_feed_order (Sample.host_serving Sample.pull_feed1)
                         (Sample.pull_world false 100))
                  (Sample.pulled_out false 100) ltac:(vm_compute; reflexivity))).
Defined.

(** X6: every candidate either filter returns carries the species name
    the table gives for its id, the VIP flag of that name and the
    allow-list weight of that name as its priority, 0 when the name is not
    on the list. *)
Theorem X6_candidates_are_enriched (h : host) (w : world) (l : list pokemon_t) :
  fst (get_pokemon_from_social h w) = Ok l \/ fst (get_pokemon_from_url h w) = Ok l ->
  forall p, In p l ->
    py_nth (pokemon_data (task w)) (pokemon_id p - 1) = Some (name p)
    /\ is_vip p = bool_decide (name p ∈ vips (bconfig (bot w)))
    /\ exists catch, cfg_catch (tconfig (task w)) = Some catch
                     /\ priority p = default 0 (catch !! name p).
Proof.
  intros [Hl | Hl] p Hp.
  - destruct (picked_In _ _ _ (social_trace h w l Hl) p Hp)
      as (raw & _ & _ & (Hnm & Hvip & Hprio & _) & _). auto.
  - destruct (picked_In _ _ _ (url_trace h w l Hl) p Hp)
      as (raw & _ & _ & (Hnm & Hvip & Hprio & _) & _). auto.
Qed.

Lemma X6_candidates_are_enriched_witness :
  List.Forall (fun p => py_nth Sample.species (pokemon_id p - 1) = Some (name p)
                        /\ is_vip p = bool_decide (name p ∈ ["Venusaur"]))
    (Sample.pulled_out false 100).
Proof.
  apply List.Forall_forall. intros p Hp.
  assert (Hrun : fst (get_pokemon_from_url (Sample.host_serving Sample.pull_feed1)
                        (Sample.pull_world false 100)) = Ok (Sample.pulled_out false 100))
    by (vm_compute; reflexivity).
  destruct (X6_candidates_are_enriched (Sample.host_serving Sample.pull_feed1)
              (Sample.pull_world false 100) (Sample.pulled_out false 100)
              (or_intror Hrun) p Hp) as (Hnm & Hvip & _).
  split; [exact Hnm | exact Hvip].
Defined.

Lemma social_unfold h w raw feed :
  mqtt_pokemon_list (bot w) = Some (raw :: feed) ->
  get_pokemon_from_social h w =
  for_each (social_body h (Num.py_int (clock w))) (raw :: feed) []
    (set_bot (with_mqtt_pokemon_list (Some [])) w).
Proof.
  intros Hbuf. unfold get_pokemon_from_social. unfold get, bind at 1. rewrite Hbuf.
  reflexivity.
Qed.

Lemma url_unfold h w address feed :
  cfg_address (tconfig (task w)) = Some address ->
  http_get h address (length (requests w)) = Body (Some feed) ->
  get_pokemon_from_url h w =
  for_each (url_body h (Num.py_int (clock w))) feed []
    (mkWorld (bot w) (task w) (events w) (requests w ++ [address]) (files w) (clock w)).
Proof.
  intros Haddr Hget. unfold get_pokemon_from_url, fetch. unfold get, bind at 1.
  rewrite Haddr. unfold item, bind, ret, modify, time_now. rewrite Hget. reflexivity.
Qed.

(** What the push filter leaves behind, return or raise. *)
Lemma social_frame (h : host) (w : world) (r : outcome (list pokemon_t)) (w' : world) :
  get_pokemon_from_social h w = (r, w') ->
  (push_feed w = [] -> r = Ok [] /\ w' = w)
  /\ (push_feed w <> [] -> bot w' = with_mqtt_pokemon_list (Some []) (bot w))
  /\ task w' = task w /\ requests w' = requests w
  /\ files w' = files w /\ clock w' = clock w.
Proof.
  unfold push_feed. destruct (mqtt_pokemon_list (bot w)) as [[|raw feed]|] eqn:Hbuf.
  1, 3: (unfold get_pokemon_from_social; unfold get, bind at 1; rewrite Hbuf;
         unfold ret; intros [= <- <-]; cbn [default];
         split; [auto | split; [intros Hn; now contradiction Hn | auto]]).
  rewrite (social_unfold h w raw feed Hbuf). intros H.
  apply for_each_only_events in H as (Hb & Ht & Hr & Hf & Hc & _).
  2:{ intros x w0 r0 w1. apply social_body_only_events. }
  cbn [default]. split; [discriminate |]. split; [intros _; exact Hb |]. auto.
Qed.

(** X7: the push filter empties the buffer before it looks at the first
    sighting, so the buffer is empty afterwards whether the call returns
    or raises; nothing else of the bot changes, nor the task, the fetched
    addresses, the files or the clock.  Without a buffer, or with an empty
    one, the call returns no candidate and changes nothing. *)
Theorem X7_push_buffer_is_drained (h : host) (w : world)
    (r : outcome (list pokemon_t)) (w' : world) :
  get_pokemon_from_social h w = (r, w') ->
  (push_feed w = [] -> r = Ok [] /\ w' = w)
  /\ (push_feed w <> [] -> bot w' = with_mqtt_pokemon_list (Some []) (bot w))
  /\ task w' = task w /\ requests w' = requests w
  /\ files w' = files w /\ clock w' = clock w.
Proof. exact (social_frame h w r w'). Qed.

Lemma X7_push_buffer_is_drained_witness :
  mqtt_pokemon_list (bot (snd (get_pokemon_from_social Sample.sample_host Sample.push_world)))
  = Some []
  /\ task (snd (get_pokemon_from_social Sample.sample_host Sample.push_world))
     = task Sample.push_world.
Proof.
  destruct (X7_push_buffer_is_drained Sample.sample_host Sample.push_world _ _
              (surjective_pairing _)) as (_ & Hbot & Htask & _).
  split; [| exact Htask]. rewrite Hbot; [reflexivity | discriminate].
Defined.

(** X8: one sighting of the push buffer whose species id is outside the
    species table makes the whole call raise: no candidate is returned,
    not even for the sightings before it, and the buffer is already
    empty. *)
Theorem X8_push_unknown_species_is_fatal (h : host) (w : world) (raw : mqtt_sighting) :
  In raw (push_feed w) ->
  py_nth (pokemon_data (task w)) (m_pokemon_id raw - 1) = None ->
  exists e w',
    get_pokemon_from_social h w = (Raise e, w')
    /\ mqtt_pokemon_list (bot w') = Some [].
Proof.
  intros Hin Hnone. unfold push_feed in Hin.
  destruct (mqtt_pokemon_list (bot w)) as [[|raw0 feed]|] eqn:Hbuf; try destruct Hin; fold (In raw feed) in *.
  all: rewrite (social_unfold h w raw0 feed Hbuf).
  all: match goal with
       | |- context [for_each ?b ?f ?acc ?w1] =>
           destruct (for_each b f acc w1) as [[l|e] w'] eqn:E
       end.
  all: try (exists e, w'; split; [reflexivity |];
            apply for_each_only_events in E as (Hb & _);
            [now rewrite Hb | intros x w0 r0 w1; apply social_body_only_events]).
  all: exfalso.
  all: match type of E with
       | for_each _ _ _ ?w1 = _ =>
           apply (for_each_raises _ (fun w0 => ctx w0 = ctx w) raw)
             with (3 := eq_refl : ctx w1 = ctx w) (5 := E)
       end.
  all: try (intros x w0 r w1 Hw0 Hb; rewrite <- Hw0; exact (social_body_ctx _ _ _ _ _ _ Hb)).
  all: try (intros w0 r w1 Hw0; apply ctx_inv in Hw0 as (_ & _ & Ht);
            unfold social_body; unfold get, bind at 1; rewrite Ht, Hnone;
            unfold raise; discriminate).
  all: simpl; auto.
Qed.

Lemma X8_push_unknown_species_is_fatal_witness :
  exists e w',
    get_pokemon_from_social Sample.sample_host
      (Sample.sample_world
         (Sample.sample_bot true 5 (Some [Sample.pushed 4 700 2000; Sample.pushed 9 50 2000]))
         (Sample.sample_task (Sample.sample_config true 10000 1000) []))
    = (Raise e, w')
    /\ mqtt_pokemon_list (bot w') = Some [].
Proof.
  apply (X8_push_unknown_species_is_fatal Sample.sample_host _ (Sample.pushed 9 50 2000)).
  - right. left. reflexivity.
  - vm_compute. reflexivity.
Defined.

(** What a round of the pull loop decides depends on the position, the
    bot configuration and the task only, not on the events emitted
    before. *)
Lemma url_body_value h now raw w1 w2 :
  ctx w1 = ctx w2 -> fst (url_body h now raw w1) = fst (url_body h now raw w2).
Proof.
  intros Hctx. pose proof (url_parse_ctx h w2 w1 raw Hctx) as Hparse.
  apply ctx_inv in Hctx as (Hpos & Hcfg & Htask).
  destruct w1 as [b1 t1 ev1 rq1 fs1 ck1], w2 as [b2 t2 ev2 rq2 fs2 ck2].
  cbn [bot task] in *. subst t1.
  unfold url_body. munfold. cbn [bot task]. rewrite Hparse.
  unfold debug, mean_walk_speed, pos_lat, pos_lon. cbn [bot task]. rewrite Hpos, Hcfg.
  clear Hparse.
  match goal with
  | |- context [url_parse ?a ?b ?c] => destruct (url_parse a b c); [| reflexivity]
  end.
  repeat match goal with
         | |- context [match ?x with _ => _ end] =>
             match x with
             | context [mkWorld] => fail 1
             | _ => destruct x; cbn [bot task fst]
             end
         | |- context [if ?x then _ else _] =>
             match x with
             | context [mkWorld] => fail 1
             | _ => destruct x; cbn [bot task fst]
             end
         end.
  all: reflexivity.
Qed.

Section LoopValue.

Context {A : Type} (body : A -> M (option pokemon_t)).
Hypothesis body_ctx : forall raw w r w', body raw w = (r, w') -> ctx w' = ctx w.
Hypothesis body_value : forall raw w1 w2, ctx w1 = ctx w2 -> fst (body raw w1) = fst (body raw w2).

Lemma for_each_value feed : forall acc w1 w2,
  ctx w1 = ctx w2 -> fst (for_each body feed acc w1) = fst (for_each body feed acc w2).
Proof.
  induction feed as [|raw rest IH]; intros acc w1 w2 Hctx; [reflexivity |].
  simpl. unfold bind. pose proof (body_value raw w1 w2 Hctx) as Hv.
  destruct (body raw w1) as [o1 w1'] eqn:E1, (body raw w2) as [o2 w2'] eqn:E2.
  simpl in Hv. subst o2. destruct o1 as [r|e]; [| reflexivity].
  apply IH. rewrite (body_ctx _ _ _ _ E1), (body_ctx _ _ _ _ E2). exact Hctx.
Qed.

(** A sighting whose round ends in [continue] in every world of the
    context can be taken out of the feed. *)
Lemma for_each_skip (c : Q * Q * Q * bot_config * task_state) (bad : A) :
  (forall w, ctx w = c -> fst (body bad w) = Ok None) ->
  forall pre post acc w,
    ctx w = c ->
    fst (for_each body (pre ++ bad :: post) acc w) = fst (for_each body (pre ++ post) acc w).
Proof.
  intros Hbad. induction pre as [|x pre IH]; intros post acc w Hw.
  - cbn [app for_each]. unfold bind. pose proof (Hbad w Hw) as Hv.
    destruct (body bad w) as [o w1] eqn:E. simpl in Hv. subst o.
    apply for_each_value. exact (body_ctx _ _ _ _ E).
  - cbn [app for_each]. unfold bind. destruct (body x w) as [[r|e] w1] eqn:E; [| reflexivity].
    apply IH. rewrite (body_ctx _ _ _ _ E). exact Hw.
Qed.

End LoopValue.

Lemma url_body_unparsed h now raw w :
  url_parse h w raw = None ->
  url_body h now raw w =
  (Ok None, mkWorld (bot w) (task w)
              (events w ++ [failure_event "Error while parsing information"])
              (requests w) (files w) (clock w)).
Proof.
  intros Hparse. unfold url_body. unfold get, bind at 1. rewrite Hparse. reflexivity.
Qed.

(** X9: in the loop of the pull filter a sighting that cannot be parsed
    (no [encounter_id] or [spawnpoint_id] key, an identifier that does not
    decode, a species id outside the table) is skipped: the candidates
    returned, or the exception raised, are those of the feed without
    it. *)
Theorem X9_pull_unparsable_is_skipped (h : host) (now : Z) (w : world)
    (pre post : list url_sighting) (bad : url_sighting) (acc : list pokemon_t) :
  url_parse h w bad = None ->
  fst (for_each (url_body h now) (pre ++ bad :: post) acc w)
  = fst (for_each (url_body h now) (pre ++ post) acc w).
Proof.
  intros Hparse.
  apply (for_each_skip (url_body h now)
           (fun raw w0 r w1 Hb => url_body_ctx h now raw w0 r w1 Hb)
           (url_body_value h now) (ctx w) bad); [| reflexivity].
  intros w0 Hw0. rewrite url_body_unparsed; [reflexivity |].
  now rewrite (url_parse_ctx h w w0 bad Hw0).
Qed.

Lemma X9_pull_unparsable_is_skipped_witness :
  fst (for_each (url_body Sample.sample_host 1000)
         ([Sample.pulled 1 500 2000] ++ Sample.pulled 9 50 2000 :: [Sample.pulled 3 600 2000])
         [] (Sample.pull_world false 100))
  = fst (for_each (url_body Sample.sample_host 1000)
           ([Sample.pulled 1 500 2000] ++ [Sample.pulled 3 600 2000])
           [] (Sample.pull_world false 100)).
Proof.
  apply (X9_pull_unparsable_is_skipped Sample.sample_host 1000 (Sample.pull_world false 100)).
  vm_compute. reflexivity.
Defined.

(** X10: what the pull filter does when there is nothing to read.  A
    missing [address] key raises before any request; a connection error
    and a body that is not JSON each cost one request and one failure
    event and give no candidate; a body without a [pokemons] entry raises
    after the request. *)
Theorem X10_pull_fetch_failures (h : host) (w : world) :
  (cfg_address (tconfig (task w)) = None ->
     get_pokemon_from_url h w = (Raise (KeyError "address"), w))
  /\ (forall address,
        cfg_address (tconfig (task w)) = Some address ->
        (http_get h address (length (requests w)) = ConnectionError ->
           get_pokemon_from_url h w =
           (Ok [], mkWorld (bot w) (task w)
                     (events w ++ [failure_event ("Could not get data from " +:+ address)])
                     (requests w ++ [address]) (files w) (clock w)))
        /\ (http_get h address (length (requests w)) = InvalidJSON ->
           get_pokemon_from_url h w =
           (Ok [], mkWorld (bot w) (task w)
                     (events w ++ [failure_event "JSON format is not valid"])
                     (requests w ++ [address]) (files w) (clock w)))
        /\ (http_get h address (length (requests w)) = Body None ->
           get_pokemon_from_url h w =
           (Raise (KeyError "pokemons"),
            mkWorld (bot w) (task w) (events w) (requests w ++ [address]) (files w) (clock w)))).
Proof.
  split.
  - intros Haddr. unfold get_pokemon_from_url. unfold get, bind at 1. now rewrite Haddr.
  - intros address Haddr.
    repeat split; intros Hget; unfold get_pokemon_from_url, fetch;
      unfold get, bind at 1; rewrite Haddr;
      unfold item, bind, ret, modify, time_now; rewrite Hget; reflexivity.
Qed.

Lemma X10_pull_fetch_failures_witness :
  fst (get_pokemon_from_url Sample.sample_host (Sample.pull_world false 100)) = Ok []
  /\ requests (snd (get_pokemon_from_url Sample.sample_host (Sample.pull_world false 100)))
     = ["http://map/raw_data"].
Proof.
  rewrite (proj1 (proj2 (X10_pull_fetch_failures Sample.sample_host (Sample.pull_world false 100))
                    "http://map/raw_data" eq_refl) eq_refl).
  split; reflexivity.
Defined.

(** ** The tick, continued *)

Lemma dump_world h w :
  writable h (path_join (path_join (base_dir h) "data")
                (caught_file_name (username (bconfig (bot w))))) = true ->
  dump_caught_pokemon h w =
  (Ok tt, mkWorld (bot w) (task w) (events w) (requests w)
            (<[path_join (path_join (base_dir h) "data")
                 (caught_file_name (username (bconfig (bot w))))
               := json_dump h (caught (task w))]> (files w))
            (clock w)).
Proof. intros Hw. unfold dump_caught_pokemon. munfold. now rewrite Hw. Qed.

(** X11: with the push feed and sniping on, a tick whose pass number is
    still below [skip_rounds] only counts the pass, once the ledger file
    could be written: [work] reports success, the counter goes up by one,
    the buffer and the rest of the bot, the ledger and the list of fetched
    addresses stay as they are. *)
Theorem X11_sniping_skips_rounds (h : host) (w : world) :
  writable h (path_join (path_join (base_dir h) "data")
                (caught_file_name (username (bconfig (bot w))))) = true ->
  enable_social (bconfig (bot w)) = true ->
  cfg_snipe (tconfig (task w)) = Some true ->
  min_ball (task w) <= balls (bot w) ->
  by_pass_times (task w) + 1 < default 30 (cfg_skip_rounds (tconfig (task w))) ->
  exists w',
    work h w = (Ok (Some SUCCESS), w')
    /\ by_pass_times (task w') = by_pass_times (task w) + 1
    /\ bot w' = bot w
    /\ caught (task w') = caught (task w)
    /\ requests w' = requests w.
Proof.
  intros Hwrite Hsocial Hsnipe Hballs Hskip.
  apply Z.ltb_lt in Hskip. apply Z.ltb_ge in Hballs. unfold balls in Hballs.
  unfold work. unfold get, bind at 1. rewrite Hballs.
  unfold bind at 1. rewrite (dump_world h w Hwrite).
  unfold retrieve, snipe_flag. munfold. cbn [bot task]. rewrite Hsocial.
  cbn [bot task]. rewrite Hsnipe.
  cbn [set_task task with_by_pass_times tconfig bot]. rewrite Hskip.
  unfold debug. cbn [task with_by_pass_times tconfig].
  destruct (default false (cfg_debug (tconfig (task w)))); eexists; (split; [reflexivity |]);
    cbn; auto.
Qed.

Lemma X11_sniping_skips_rounds_witness :
  exists w',
    work Sample.sample_host
      (Sample.sample_world
         (Sample.sample_bot true 5 (Some [Sample.pushed 4 700 2000]))
         (Sample.sample_task
            (mkConfig (Some 1) None None None None (Some Sample.catch_list) None
               (Some 10000%Q) (Some 1000%Q) (Some true) None None (Some 3)
               (Some "priority") (Some true) None None) []))
    = (Ok (Some SUCCESS), w')
    /\ by_pass_times (task w') = 1
    /\ mqtt_pokemon_list (bot w') = Some [Sample.pushed 4 700 2000].
Proof.
  edestruct X11_sniping_skips_rounds as (w' & Hrun & Hcount & Hbot & _).
  6:{ exists w'. split; [exact Hrun |]. split; [exact Hcount |]. rewrite Hbot. reflexivity. }
  all: vm_compute; try reflexivity; discriminate.
Defined.

(** X12: a tick of the push feed without sniping and without sightings in
    the buffer reports success, once the ledger file could be written; the
    bot and the task are untouched, and the only thing written is the
    ledger file under [data]. *)
Theorem X12_nothing_to_do (h : host) (w : world) (mode : string) (vip_first : bool) :
  writable h (path_join (path_join (base_dir h) "data")
                (caught_file_name (username (bconfig (bot w))))) = true ->
  enable_social (bconfig (bot w)) = true ->
  cfg_snipe (tconfig (task w)) = Some false ->
  cfg_mode (tconfig (task w)) = Some mode ->
  cfg_prioritize_vips (tconfig (task w)) = Some vip_first ->
  min_ball (task w) <= balls (bot w) ->
  push_feed w = [] ->
  exists w',
    work h w = (Ok (Some SUCCESS), w')
    /\ bot w' = bot w /\ task w' = task w /\ requests w' = requests w
    /\ files w' = <[path_join (path_join (base_dir h) "data")
                      (caught_file_name (username (bconfig (bot w))))
                    := json_dump h (caught (task w))]> (files w).
Proof.
  intros Hwrite Hsocial Hsnipe Hmode Hvip Hballs Hfeed.
  apply Z.ltb_ge in Hballs. unfold balls in Hballs.
  unfold work. unfold get, bind at 1. rewrite Hballs.
  unfold bind at 1. rewrite (dump_world h w Hwrite).
  unfold retrieve, snipe_flag, get_pokemon_from_social, order_targets. munfold. cbn [bot task].
  rewrite Hsocial. cbn [bot task]. rewrite Hsnipe. cbn [bot task].
  assert (Hret : match mqtt_pokemon_list (bot w) with
                 | Some (_ :: _) => False
                 | _ => True
                 end).
  { unfold push_feed in Hfeed. destruct (mqtt_pokemon_list (bot w)) as [[|]|]; [exact I | | exact I].
    discriminate. }
  destruct (mqtt_pokemon_list (bot w)) as [[|]|]; try destruct Hret.
  all: cbn [bot task]; rewrite Hmode, Hvip.
  all: assert (Hsort : forall key, sort_desc key [] = []) by reflexivity.
  all: destruct (String.eqb mode "priority"), vip_first; rewrite ?Hsort.
  all: unfold debug; cbn [task].
  all: destruct (default false (cfg_debug (tconfig (task w)))); eexists;
         (split; [reflexivity |]); cbn; auto.
Qed.

Lemma X12_nothing_to_do_witness :
  exists w',
    work Sample.sample_host
      (Sample.sample_world (Sample.sample_bot true 5 None)
         (Sample.sample_task (Sample.sample_config false 10000 1000) [Sample.entry 3]))
    = (Ok (Some SUCCESS), w')
    /\ task w' = Sample.sample_task (Sample.sample_config false 10000 1000) [Sample.entry 3].
Proof.
  edestruct (X12_nothing_to_do Sample.sample_host
               (Sample.sample_world (Sample.sample_bot true 5 None)
                  (Sample.sample_task (Sample.sample_config false 10000 1000) [Sample.entry 3]))
               "priority" true) as (w' & Hrun & _ & Htask & _).
  8:{ exists w'. split; [exact Hrun | exact Htask]. }
  all: vm_compute; try reflexivity; discriminate.
Defined.

(** X22: with enough balls a tick starts by dumping the ledger, and when
    the file under [data] cannot be opened for writing the [IOError] ends
    the tick there: no feed is read, nothing is emitted, and the bot, the
    task and the files are as before. *)
Theorem X22_unwritable_dump_ends_the_tick (h : host) (w : world) :
  min_ball (task w) <= balls (bot w) ->
  writable h (path_join (path_join (base_dir h) "data")
                (caught_file_name (username (bconfig (bot w))))) = false ->
  work h w = (Raise IOError, w).
Proof.
  intros Hballs Hwrite.
  apply Z.ltb_ge in Hballs. unfold balls in Hballs.
  unfold work. unfold get, bind at 1. rewrite Hballs.
  unfold bind at 1. unfold dump_caught_pokemon. unfold get, bind at 1.
  rewrite Hwrite. reflexivity.
Qed.

Lemma X22_unwritable_dump_ends_the_tick_witness :
  work Field.host_without_data Sample.push_world = (Raise IOError, Sample.push_world).
Proof.
  apply (X22_unwritable_dump_ends_the_tick Field.host_without_data Sample.push_world).
  - vm_compute. discriminate.
  - reflexivity.
Defined.

(** ** Waypoints *)

Lemma prune_forts_filter h w p forts :
  prune_forts h w p forts = List.filter (on_the_way h w p) forts.
Proof.
  induction forts as [|f forts IH]; simpl; [reflexivity |].
  destruct (on_the_way h w p f); now rewrite IH.
Qed.

Lemma head_filter {A} (f : A -> bool) (l : list A) :
  match head (List.filter f l) with
  | Some x => exists before after,
      l = (before ++ x :: after)%list /\ f x = true /\ List.Forall (fun y => f y = false) before
  | None => List.Forall (fun y => f y = false) l
  end.
Proof.
  induction l as [|y l IH]; simpl; [constructor |].
  destruct (f y) eqn:Hy; simpl.
  - exists [], l. repeat split; [assumption | constructor].
  - destruct (head (List.filter f l)) as [x|].
    + destruct IH as (before & after & -> & Hx & Hb).
      exists (y :: before), after. repeat split; [assumption | now constructor].
    + now constructor.
Qed.

Lemma nearest_fort_eligible h p w :
  get_nearest_fort_on_the_way h p w =
  (Ok (head (List.filter (eligible_fort h w p) (get_forts h (bot w)))), w).
Proof.
  unfold get_nearest_fort_on_the_way, get, bind, ret.
  now rewrite prune_forts_filter, filter_filter.
Qed.

(** X13: [get_nearest_fort_on_the_way] returns the first waypoint, in the
    order of the waypoint service, that is not on timeout and whose detour
    stays below the allowed overhead; every waypoint listed before it is
    on timeout or too far off.  It returns nothing exactly when no
    waypoint qualifies, and it changes nothing. *)
Theorem X13_nearest_fort_is_first_eligible (h : host) (p : pokemon_t) (w : world) :
  exists r,
    get_nearest_fort_on_the_way h p w = (Ok r, w)
    /\ match r with
       | Some f =>
           exists before after,
             get_forts h (bot w) = (before ++ f :: after)%list
             /\ (fort_id f ∉ fort_timeouts (bot w))
             /\ on_the_way h w p f = true
             /\ List.Forall (fun g => (fort_id g ∈ fort_timeouts (bot w))
                                      \/ on_the_way h w p g = false) before
       | None =>
           List.Forall (fun g => (fort_id g ∈ fort_timeouts (bot w))
                                 \/ on_the_way h w p g = false) (get_forts h (bot w))
       end.
Proof.
  eexists. split; [apply nearest_fort_eligible |].
  assert (Hno : forall g, eligible_fort h w p g = false ->
                  (fort_id g ∈ fort_timeouts (bot w)) \/ on_the_way h w p g = false).
  { intros g Hg. unfold eligible_fort in Hg. apply andb_false_iff in Hg as [Hg | Hg].
    - left. apply bool_decide_eq_false in Hg.
      destruct (decide (fort_id g ∈ fort_timeouts (bot w))); [assumption | contradiction].
    - now right. }
  pose proof (head_filter (eligible_fort h w p) (get_forts h (bot w))) as H.
  destruct (head (List.filter (eligible_fort h w p) (get_forts h (bot w)))) as [f|].
  - destruct H as (before & after & Heq & Hf & Hb).
    exists before, after. unfold eligible_fort in Hf. apply andb_true_iff in Hf as [Hf1 Hf2].
    apply bool_decide_eq_true in Hf1. repeat split; try assumption.
    eapply List.Forall_impl; [| exact Hb]. exact Hno.
  - eapply List.Forall_impl; [| exact H]. exact Hno.
Qed.

(** X14: for a target that is not a VIP with a waypoint on the way, the
    walk takes one step towards the waypoint, not towards the target: the
    walker is built for the waypoint's coordinates, a single event is
    emitted, the capture lock is not taken and the ledger is not written.
    The tick is running while the walker has not arrived (or there is no
    walker) and ends without a result when it has. *)
Theorem X14_walk_through_fort (h : host) (p : pokemon_t) (w : world) (f : fort) :
  min_ball (task w) <= balls (bot w) ->
  is_vip p = false ->
  fst (get_nearest_fort_on_the_way h p w) = Ok (Some f) ->
  exists ev w',
    walk h p w =
      (Ok match walker_factory h (walker (task w)) (fort_latitude f) (fort_longitude f) (bot w) with
          | Some sw => if fst (walker_step h sw (bot w)) then None else Some RUNNING
          | None => Some RUNNING
          end, w')
    /\ events w' = (events w ++ [ev])%list
    /\ ev_name ev =
         (if Num.gt (distance h (pos_lat (bot w)) (pos_lon (bot w))
                       (fort_latitude f) (fort_longitude f))
               (MAX_DISTANCE_FORT_IS_REACHABLE h)
          then "moving_to_pokemon_throught_fort" else "arrived_at_fort")
    /\ bot w' =
         match walker_factory h (walker (task w)) (fort_latitude f) (fort_longitude f) (bot w) with
         | Some sw => snd (walker_step h sw (bot w))
         | None => bot w
         end
    /\ task w' = task w.
Proof.
  intros Hballs Hvip Hfort. apply Z.ltb_ge in Hballs.
  rewrite nearest_fort_eligible in Hfort. cbn [fst] in Hfort. injection Hfort as Hfort.
  unfold walk. unfold get, bind at 1. rewrite Hballs.
  unfold bind at 1. rewrite nearest_fort_eligible, Hvip, Hfort.
  unfold move_to_pokemon_througt_fort. munfold.
  destruct (Num.gt _ (MAX_DISTANCE_FORT_IS_REACHABLE h));
    cbn [bot task];
    (destruct (walker_factory h (walker (task w)) (fort_latitude f) (fort_longitude f) (bot w))
       as [sw|]; cbn [bot task];
     [destruct (walker_step h sw (bot w)) as [[] b2] |]);
    cbn [fst snd negb]; eexists; eexists; (split; [reflexivity |]); cbn; auto.
Qed.

Lemma X14_walk_through_fort_witness :
  exists w',
    walk (Field.host_with Field.stops (mkCell None None)) (Field.plain_target 500)
      (Field.walker_world ∅)
    = (Ok (Some RUNNING), w')
    /\ map ev_name (events w') = ["moving_to_pokemon_throught_fort"]
    /\ capture_locked (bot w') = Unlocked.
Proof.
  edestruct (X14_walk_through_fort (Field.host_with Field.stops (mkCell None None))
               (Field.plain_target 500) (Field.walker_world ∅) (Field.stop "near" 200 10))
    as (ev & w' & Hrun & Hev & Hname & Hbot & _).
  4:{ exists w'. split; [exact Hrun |]. split.
      - rewrite Hev. cbn [map app events Field.walker_world]. now rewrite Hname.
      - rewrite Hbot. reflexivity. }
  all: vm_compute; try reflexivity; discriminate.
Defined.

(** ** Sniping, continued *)

(** X15: the validation loop of [snipe] confirms the target exactly when
    a creature of the target's species is around.  The identifiers and the
    expiry of the first such creature replace the target's when one of the
    target's identifiers is missing, and only then; position, name,
    priority and the rest of the target are never touched. *)
Theorem X15_validation_finds_the_species (nearby : list nearby_pokemon) (p : pokemon_t)
    (w : world) (found : bool) (p' : pokemon_t) (w' : world) :
  verify_loop nearby p false w = (Ok (found, p'), w') ->
  w' = w
  /\ match List.find (fun n => nearby_pokemon_id n =? pokemon_id p) nearby with
     | None => found = false /\ p' = p
     | Some n =>
         found = true
         /\ exists invalid, ids_invalid p = Some invalid
                            /\ p' = if invalid then backfill n p else p
     end
  /\ latitude p' = latitude p /\ longitude p' = longitude p
  /\ pokemon_id p' = pokemon_id p /\ name p' = name p /\ priority p' = priority p.
Proof.
  intros H. split; [exact (verify_loop_world _ _ _ _ _ _ H) |].
  revert H. induction nearby as [|n nearby IH]; simpl; intros H.
  - munfold. inversion H; subst. auto 10.
  - destruct (nearby_pokemon_id n =? pokemon_id p); [| exact (IH H)].
    unfold ids_invalid. munfold.
    destruct (negb (truthy (encounter_id p))).
    + inversion H; subst. split; [split; [reflexivity | exists true; auto] |].
      destruct n; simpl; auto.
    + destruct (spawnpoint_id p) as [sp|]; [| discriminate].
      inversion H; subst. split; [split; [reflexivity | eexists; split; reflexivity] |].
      destruct (negb (truthy sp)); [destruct n |]; simpl; auto.
Qed.

Lemma X15_validation_finds_the_species_witness :
  fst (verify_loop [Catchable 2 IdNone IdNone 5; Wild 3 (IdInt 77) (IdStr "s7") 9000]
         (Sample.vip_target 600) false Sample.walk_world)
  = Ok (true, backfill (Wild 3 (IdInt 77) (IdStr "s7") 9000) (Sample.vip_target 600)).
Proof.
  destruct (verify_loop [Catchable 2 IdNone IdNone 5; Wild 3 (IdInt 77) (IdStr "s7") 9000]
              (Sample.vip_target 600) false Sample.walk_world) as [[[found p']|e] w'] eqn:E;
    [| vm_compute in E; discriminate E].
  destruct (X15_validation_finds_the_species _ _ _ _ _ _ E) as (_ & Hfind & _).
  cbn in Hfind. destruct Hfind as (-> & invalid & Hinv & ->).
  vm_compute in Hinv. injection Hinv as <-. reflexivity.
Defined.

Lemma verify_loop_coords nearby p e w r p' w' :
  verify_loop nearby p e w = (Ok (r, p'), w') ->
  latitude p' = latitude p /\ longitude p' = longitude p.
Proof.
  induction nearby as [|n nearby IH]; simpl; intros H.
  - munfold. inversion H; subst. auto.
  - destruct (nearby_pokemon_id n =? pokemon_id p); [| exact (IH H)].
    munfold. mcase; try (destruct n); simpl; auto.
Qed.

Lemma count_events_app nm evs evs' :
  count_events nm (evs ++ evs') = (count_events nm evs + count_events nm evs')%nat.
Proof. unfold count_events. now rewrite List.filter_app, length_app. Qed.

(** What a returning [snipe] leaves behind. *)
Lemma snipe_effects h p w r w' :
  snipe h p w = (Ok r, w') ->
  exists p' middle evs,
    task w' = with_caught (Ledger.inspect (caught (task w)) p') (task w)
    /\ events w' = (events w ++ evs)%list
    /\ map ev_name evs = ["move_to_map_pokemon_teleport_to"; middle;
                          "move_to_map_pokemon_teleport_back"]
    /\ (middle = "move_to_map_pokemon_encounter" \/ middle = "move_to_map_pokemon_fail")
    /\ requests w' = requests w /\ files w' = files w
    /\ latitude p' = latitude p /\ longitude p' = longitude p.
Proof.
  intros H. unfold snipe, teleport_to, teleport_back, encountered, inspect,
    pokemon_event_data, emit_failure in H.
  munfold.
  repeat match goal with
  | H : (_, _) = (_, _) |- _ => inversion H; subst; clear H
  | H : context [match verify_loop ?a ?b ?c ?d with _ => _ end] |- _ =>
      let E := fresh "E" in
      let E' := fresh "Everify" in
      destruct (verify_loop a b c d) as [? ?] eqn:E;
      pose proof E as E';
      apply verify_loop_world in E; subst; cbn beta iota in H
  | H : context [match ?x with _ => _ end] |- _ => destruct x eqn:?; cbn beta iota in H
  | H : context [if ?x then _ else _] |- _ => destruct x eqn:?; cbn beta iota in H
  end.
  all: try match goal with
       | E : verify_loop _ _ _ _ = (Ok (_, _), _) |- _ =>
           pose proof (verify_loop_coords _ _ _ _ _ _ _ E);
           apply verify_loop_world in E; subst
       end.
  all: cbn [bot set_bot set_task task events requests files].
  all: eexists; eexists; eexists.
  all: (split; [reflexivity |]).
  all: (split; [rewrite <- !List.app_assoc; cbn [app]; reflexivity |]).
  all: (split; [cbn [map ev_name]; reflexivity |]).
  all: (split; [first [left; reflexivity | right; reflexivity] |]).
  all: (split; [reflexivity |]).
  all: (split; [reflexivity |]).
  all: first [assumption | split; reflexivity].
Qed.

(** X16: a call of [snipe] that returns has put the target's position in
    the ledger, on the capture path and on the abort path, so that
    [is_inspected] answers true for the target afterwards.  It has emitted
    the teleport event, then the encounter or the failure event, then the
    teleport-back event, and has fetched no address and written no
    file. *)
Theorem X16_snipe_records_the_target (h : host) (p : pokemon_t) (w : world)
    (r : WorkerResult) (w' : world) :
  snipe h p w = (Ok r, w') ->
  Ledger.is_inspected (caught (task w')) p = true
  /\ (exists middle,
        map ev_name (events w') =
          (map ev_name (events w)
             ++ ["move_to_map_pokemon_teleport_to"; middle;
                 "move_to_map_pokemon_teleport_back"])%list
        /\ (middle = "move_to_map_pokemon_encounter" \/ middle = "move_to_map_pokemon_fail"))
  /\ requests w' = requests w /\ files w' = files w.
Proof.
  intros H.
  destruct (snipe_effects h p w r w' H)
    as (p' & middle & evs & Htask & Hev & Hnames & Hmiddle & Hreq & Hfiles & Hlat & Hlon).
  split; [| split; [| auto]].
  - rewrite Htask. cbn [caught with_caught].
    rewrite (is_inspected_coords _ p p') by congruence. apply is_inspected_after.
  - exists middle. split; [| assumption]. now rewrite Hev, List.map_app, Hnames.
Qed.

Lemma X16_snipe_records_the_target_witness :
  Ledger.is_inspected
    (caught (task (snd (snipe Sample.sample_host (Sample.vip_target 600)
                          (Sample.pull_world true 10000)))))
    (Sample.vip_target 600) = true.
Proof.
  apply (X16_snipe_records_the_target Sample.sample_host (Sample.vip_target 600)
           (Sample.pull_world true 10000) SUCCESS
           (snd (snipe Sample.sample_host (Sample.vip_target 600)
                   (Sample.pull_world true 10000)))).
  vm_compute. reflexivity.
Defined.

Lemma count_events_names nm evs :
  count_events nm evs = length (List.filter (fun s => String.eqb s nm) (map ev_name evs)).
Proof.
  unfold count_events. induction evs as [|e evs IH]; simpl; [reflexivity |].
  destruct (String.eqb (ev_name e) nm); simpl; now rewrite IH.
Qed.

Lemma snipe_teleports_once h p w r w' :
  snipe h p w = (Ok r, w') ->
  count_events "move_to_map_pokemon_teleport_to" (events w')
  = S (count_events "move_to_map_pokemon_teleport_to" (events w))
  /\ snipe_high_prio_threshold (task w') = snipe_high_prio_threshold (task w)
  /\ tconfig (task w') = tconfig (task w).
Proof.
  intros H.
  destruct (snipe_effects h p w r w' H)
    as (p' & middle & evs & Htask & Hev & Hnames & Hmiddle & _).
  split; [| now rewrite Htask].
  rewrite Hev, count_events_app, (count_events_names _ evs), Hnames.
  destruct Hmiddle as [-> | ->]; simpl; lia.
Qed.

(** The teleports of the chain, [count] snipes being done already. *)
Lemma snipe_chain_bound h l : forall count w r w',
  snipe_chain h l count w = (Ok r, w') ->
  let added := (count_events "move_to_map_pokemon_teleport_to" (events w')
                - count_events "move_to_map_pokemon_teleport_to" (events w))%nat in
  r = SUCCESS
  /\ (count_events "move_to_map_pokemon_teleport_to" (events w)
      <= count_events "move_to_map_pokemon_teleport_to" (events w'))%nat
  /\ (added <= length (worth_sniping (snipe_high_prio_threshold (task w)) l))%nat
  /\ (Z.of_nat added
      <= Z.max 1 (default 2 (cfg_snipe_max_in_chain (tconfig (task w))) - count)).
Proof.
  induction l as [|p l IH]; intros count w r w' H; cbn zeta.
  - simpl in H. munfold. inversion H; subst. simpl. repeat split; lia.
  - cbn [snipe_chain] in H. unfold get, bind at 1 in H. unfold worth_sniping.
    cbn [List.filter]. fold (worth_sniping (snipe_high_prio_threshold (task w)) l).
    destruct (snipe_high_prio_threshold (task w) <? priority p).
    + unfold bind at 1 in H. destruct (snipe h p w) as [[r1|e] w1] eqn:Esnipe; [| discriminate].
      destruct (snipe_teleports_once _ _ _ _ _ Esnipe) as (Hone & Hthr & Hcfg).
      unfold get, bind at 1 in H. rewrite Hcfg in H.
      destruct (default 2 (cfg_snipe_max_in_chain (tconfig (task w))) <=? count + 1) eqn:Hmax.
      * munfold. inversion H; subst. cbn [length]. rewrite Hone. repeat split; lia.
      * apply Z.leb_gt in Hmax. unfold bind at 1 in H.
        assert (Hnext : exists w2, snipe_chain h l (count + 1) w2 = (Ok r, w')
                                   /\ events w2 = events w1 /\ task w2 = task w1).
        { unfold when, sleep, modify, ret in H.
          destruct (negb (count + 1 =? 1)); cbn beta iota in H; eexists; (split; [exact H |]);
            split; reflexivity. }
        destruct Hnext as (w2 & Hrest & Hev2 & Htask2).
        specialize (IH _ _ _ _ Hrest). cbn zeta in IH.
        rewrite Hev2, Htask2, Hthr, Hcfg in IH.
        destruct IH as (-> & Hmono & Hlen & Hcap). cbn [length].
        repeat split; lia.
    + unfold bind at 1 in H.
      assert (Hnext : exists w2, snipe_chain h l count w2 = (Ok r, w')
                                 /\ count_events "move_to_map_pokemon_teleport_to" (events w2)
                                    = count_events "move_to_map_pokemon_teleport_to" (events w)
                                 /\ task w2 = task w).
      { unfold when, emit_log, emit_event, modify, ret in H.
        destruct (debug w); cbn beta iota in H; eexists; (split; [exact H |]);
          split; try reflexivity.
        cbn [events]. rewrite count_events_app.
        match goal with
        | |- (_ + ?c = _)%nat => replace c with 0%nat by reflexivity
        end. lia. }
      destruct Hnext as (w2 & Hrest & Hev2 & Htask2).
      specialize (IH _ _ _ _ Hrest). cbn zeta in IH.
      rewrite Hev2, Htask2 in IH. exact IH.
Qed.

(** X17: in the high-priority-only mode a tick teleports at most
    [snipe_max_in_chain] times (once when that limit is below one), never
    more often than there are candidates above the priority threshold, and
    reports success. *)
Theorem X17_chain_is_bounded (h : host) (l : list pokemon_t) (w : world)
    (r : WorkerResult) (w' : world) :
  snipe_chain h l 0 w = (Ok r, w') ->
  r = SUCCESS
  /\ (count_events "move_to_map_pokemon_teleport_to" (events w')
      <= count_events "move_to_map_pokemon_teleport_to" (events w)
         + Z.to_nat (Z.max 1 (default 2%Z (cfg_snipe_max_in_chain (tconfig (task w))))))%nat
  /\ (count_events "move_to_map_pokemon_teleport_to" (events w')
      <= count_events "move_to_map_pokemon_teleport_to" (events w)
         + length (worth_sniping (snipe_high_prio_threshold (task w)) l))%nat.
Proof.
  intros H. destruct (snipe_chain_bound h l 0 w r w' H) as (Hr & Hmono & Hlen & Hcap).
  rewrite Z.sub_0_r in Hcap. repeat split; [assumption | lia | lia].
Qed.

Lemma X17_chain_is_bounded_witness :
  (count_events "move_to_map_pokemon_teleport_to"
     (events (snd (snipe_chain Sample.sample_host (Sample.trio false) 0 (Field.chain_world 1))))
   <= 1)%nat.
Proof.
  destruct (X17_chain_is_bounded Sample.sample_host (Sample.trio false) (Field.chain_world 1)
              SUCCESS
              (snd (snipe_chain Sample.sample_host (Sample.trio false) 0 (Field.chain_world 1)))
              ltac:(vm_compute; reflexivity)) as (_ & Hcap & _).
  exact Hcap.
Defined.

(** ** More on persistence and on the species table *)

Ltac init_unfold :=
  unfold initialize; munfold; cbn [files bot task set_task tconfig].

(** X18: [initialize] starts from scratch: run in two worlds with the
    same bot, the same configuration and the same files, it ends the same
    way, and when it returns it leaves the same task state behind,
    whatever the task held before (ledger, skip counter, cached
    settings). *)
Theorem X18_initialize_forgets_the_task (h : host) (w1 w2 : world) :
  bot w1 = bot w2 ->
  tconfig (task w1) = tconfig (task w2) ->
  files w1 = files w2 ->
  fst (initialize h w1) = fst (initialize h w2)
  /\ (fst (initialize h w1) = Ok tt ->
      task (snd (initialize h w1)) = task (snd (initialize h w2))).
Proof.
  intros Hbot Hcfg Hfiles. init_unfold. rewrite Hbot, Hcfg, Hfiles.
  destruct (files w2 !! _) as [content|]; [destruct (json_load h content) |];
    cbn [fst snd]; (split; [reflexivity | intros Hok; try discriminate Hok]); reflexivity.
Qed.

Lemma X18_initialize_forgets_the_task_witness :
  task (snd (initialize (Field.host_with [] (mkCell None None))
               (Field.restart_world [Sample.entry 3])))
  = task (snd (initialize (Field.host_with [] (mkCell None None)) (Field.restart_world []))).
Proof.
  apply (X18_initialize_forgets_the_task (Field.host_with [] (mkCell None None))
           (Field.restart_world [Sample.entry 3]) (Field.restart_world [])
           eq_refl eq_refl eq_refl).
  vm_compute. reflexivity.
Defined.

(** X19: when the file [initialize] looks for exists, the ledger after
    [initialize] is what the codec reads from it, and the counters are at
    zero; a file the codec rejects is fatal: the [ValueError] of
    [json.load] is not caught, the ledger is left empty and the altitude
    is not drawn. *)
Theorem X19_initialize_loads_the_file (h : host) (w : world) (content : string) :
  files w !! path_join (base_dir h) (caught_file_name (username (bconfig (bot w))))
    = Some content ->
  match json_load h content with
  | Some l =>
      fst (initialize h w) = Ok tt
      /\ caught (task (snd (initialize h w))) = l
      /\ last_map_update (task (snd (initialize h w))) = 0
      /\ by_pass_times (task (snd (initialize h w))) = 0
      /\ alt (task (snd (initialize h w)))
         = uniform h (alt_min (bconfig (bot w))) (alt_max (bconfig (bot w)))
  | None =>
      fst (initialize h w) = Raise ValueError
      /\ caught (task (snd (initialize h w))) = []
      /\ alt (task (snd (initialize h w))) = alt (task w)
  end.
Proof.
  intros Hfile. init_unfold. rewrite Hfile.
  destruct (json_load h content); cbn; repeat split; reflexivity.
Qed.

Lemma X19_initialize_loads_the_file_witness :
  fst (initialize (Field.host_with [] (mkCell None None)) (Field.restart_world [])) = Ok tt
  /\ caught (task (snd (initialize (Field.host_with [] (mkCell None None))
                          (Field.restart_world []))))
     = [Sample.entry 7]
  /\ fst (initialize Sample.sample_host (Field.restart_world [])) = Raise ValueError.
Proof.
  pose proof (X19_initialize_loads_the_file (Field.host_with [] (mkCell None None))
                (Field.restart_world []) "[entry]" ltac:(vm_compute; reflexivity)) as Hgood.
  pose proof (X19_initialize_loads_the_file Sample.sample_host
                (Field.restart_world []) "[entry]" ltac:(vm_compute; reflexivity)) as Hbad.
  cbn [json_load Field.host_with Sample.sample_host] in Hgood, Hbad.
  destruct Hgood as (Hok & Hcaught & _). destruct Hbad as (Hraise & _).
  split; [exact Hok | split; [exact Hcaught | exact Hraise]].
Defined.

(** X20: [dump_caught_pokemon] never changes what the next [initialize]
    does: after a dump, written or failed, [initialize] ends the same way
    and leaves the same task state as without it, because the dump goes
    to another path than the one [initialize] reads. *)
Theorem X20_dump_is_invisible_to_initialize (h : host) (w : world) :
  fst (initialize h (snd (dump_caught_pokemon h w))) = fst (initialize h w)
  /\ task (snd (initialize h (snd (dump_caught_pokemon h w))))
     = task (snd (initialize h w)).
Proof.
  pose proof (dump_keeps_load_path h w) as Hkeep.
  destruct (dump_frame h w) as (Hbot & Htask & _).
  revert Hkeep Hbot Htask. generalize (snd (dump_caught_pokemon h w)).
  intros [b t ev rq fs ck]. destruct w as [b0 t0 ev0 rq0 fs0 ck0].
  cbn [bot task files]. intros Hkeep -> ->.
  init_unfold. rewrite Hkeep.
  destruct (fs0 !! _) as [content|]; [destruct (json_load h content) |];
    cbn [fst snd]; split; reflexivity.
Qed.

Lemma py_nth_wraps {A} (l : list A) (i : Z) (x : A) :
  py_nth l i = Some x ->
  - Z.of_nat (length l) <= i < Z.of_nat (length l)
  /\ nth_error l (Z.to_nat (i mod Z.of_nat (length l))) = Some x.
Proof.
  unfold py_nth. intros H.
  destruct (i <? 0) eqn:Hneg;
    destruct ((0 <=? _) && (_ <? _)) eqn:Hin; try discriminate;
    apply andb_true_iff in Hin as [Hlo Hhi];
    apply Z.leb_le in Hlo; apply Z.ltb_lt in Hhi.
  - apply Z.ltb_lt in Hneg. split; [lia |].
    replace (i mod Z.of_nat (length l)) with (i + Z.of_nat (length l)); [exact H |].
    apply Z.mod_unique with (q := -1); lia.
  - apply Z.ltb_ge in Hneg. split; [lia |].
    rewrite Z.mod_small by lia. exact H.
Qed.

(** X21: the species table is indexed the Python way.  A candidate of
    either filter has a species number [id] with [-n < id <= n], [n]
    being the length of the table, and carries the name at position
    [(id - 1) mod n]: the numbers from [1 - n] to [0] are not rejected,
    they name species counted from the end of the table. *)
Theorem X21_species_number_wraps (h : host) (w : world) (l : list pokemon_t) :
  fst (get_pokemon_from_social h w) = Ok l \/ fst (get_pokemon_from_url h w) = Ok l ->
  forall p, In p l ->
    let n := Z.of_nat (length (pokemon_data (task w))) in
    - n < pokemon_id p <= n
    /\ nth_error (pokemon_data (task w)) (Z.to_nat ((pokemon_id p - 1) mod n)) = Some (name p).
Proof.
  intros Hl p Hp n.
  assert (Hnm : py_nth (pokemon_data (task w)) (pokemon_id p - 1) = Some (name p)).
  { destruct Hl as [Hl | Hl].
    - destruct (picked_In _ _ _ (social_trace h w l Hl) p Hp)
        as (raw & _ & _ & (Hnm & _) & _). exact Hnm.
    - destruct (picked_In _ _ _ (url_trace h w l Hl) p Hp)
        as (raw & _ & _ & (Hnm & _) & _). exact Hnm. }
  apply py_nth_wraps in Hnm as [Hrange Hnth]. fold n in Hrange, Hnth.
  split; [lia | exact Hnth].
Qed.

Lemma X21_species_number_wraps_witness :
  exists p,
    fst (get_pokemon_from_url (Sample.host_serving [Sample.pulled 0 500 2000])
           (Sample.pull_world false 100)) = Ok [p]
    /\ pokemon_id p = 0 /\ nth_error Sample.species 3 = Some (name p).
Proof.
  pose (feed := [Sample.pulled 0 500 2000]).
  pose (p := mkPokemon 0 (500 # 100000) 0 (IdStr EmptyString) (IdStr "sp") (Some (IdStr "sp"))
                 (Some 0) 2000 "Charmander" false 20 500).
  assert (Hrun : fst (get_pokemon_from_url (Sample.host_serving feed)
                        (Sample.pull_world false 100)) = Ok [p])
    by (vm_compute; reflexivity).
  exists p. split; [exact Hrun |]. split; [reflexivity |].
  destruct (X21_species_number_wraps (Sample.host_serving feed)
              (Sample.pull_world false 100) [p] (or_intror Hrun) p (or_introl eq_refl))
    as (_ & Hnth).
  exact Hnth.
Defined.
